(** * ESG 10-K extraction (scripts/esg_10k_extraction.py)

    A shallow embedding of the extraction script and the proofs of the
    properties its specification states.

    Conventions of the embedding.
    - A Python [str] is a [list ascii]; a character is read as the code
      point of the same number (0..255), so the tables below are the
      Unicode tables of [str.isspace], [\w] and case folding cut to
      that range.
    - [re] is embedded at the level of the compiled pattern: a list of
      operations run by a backtracking matcher, as sre does.
    - A dict with string keys is a [gmap string _] where only lookups
      matter, an association list where the iteration order matters.
    - Code that talks to the network or the file system is written in a
      small monad over a world that records what was requested and
      written; an exception is a result of its own. *)

From Stdlib Require Import ZArith QArith Qabs Qpower Lqa Ascii String List Lia Bool.
From stdpp Require Import gmap strings list.

Local Open Scope string_scope.
Local Open Scope nat_scope.
Local Open Scope list_scope.

Abbreviation text := (list ascii).

(** A string literal as a [text]. *)
Definition s2t (s : string) : text := list_ascii_of_string s.

(** ** Characters *)

Definition code (c : ascii) : N := N_of_ascii c.

Definition in_range (lo hi n : N) : bool := ((lo <=? n) && (n <=? hi))%N.

(** [str.isspace] and the class [\s]: the same table in CPython. *)
Definition isspace (c : ascii) : bool :=
  let n := code c in
  in_range 9 13 n || in_range 28 32 n || (n =? 133)%N || (n =? 160)%N.

(** [str.isalnum]: letters, decimal digits and the other numeric
    characters of the range. *)
Definition isalnum (c : ascii) : bool :=
  let n := code c in
  in_range 48 57 n || in_range 65 90 n || in_range 97 122 n
  || (n =? 170)%N || in_range 178 179 n || (n =? 181)%N
  || in_range 185 186 n || in_range 188 190 n
  || in_range 192 214 n || in_range 216 246 n || in_range 248 255 n.

(** The class [\w]: alphanumeric or underscore. *)
Definition is_word (c : ascii) : bool := isalnum c || (code c =? 95)%N.

(** Lower-casing of one character, as IGNORECASE matching uses it. *)
Definition lower (c : ascii) : ascii :=
  let n := code c in
  if in_range 65 90 n || (in_range 192 222 n && negb (n =? 215)%N)
  then ascii_of_N (n + 32) else c.

Definition period : ascii := "."%char.

(** ** Slices, strip and whitespace collapsing *)

(** The slice [t[s:e]]. *)
Definition slice (t : text) (s e : nat) : text := take (e - s) (drop s t).

Fixpoint lstrip (t : text) : text :=
  match t with
  | c :: r => if isspace c then lstrip r else t
  | [] => []
  end.

Definition rstrip (t : text) : text := rev (lstrip (rev t)).

(** [str.strip()] *)
Definition strip (t : text) : text := rstrip (lstrip t).

(** [re.sub(r'\s+', ' ', text)]: every maximal run of whitespace becomes
    one space. [in_run] tells that the previous character was
    whitespace, so that the run has been replaced already. *)
Fixpoint sub_spaces (in_run : bool) (t : text) : text :=
  match t with
  | [] => []
  | c :: r =>
      if isspace c
      then (if in_run then sub_spaces true r else " "%char :: sub_spaces true r)
      else c :: sub_spaces false r
  end.

Definition collapse_whitespace (t : text) : text := sub_spaces false t.

(** ** The regular-expression engine *)

(** The operations the pattern of the extractor compiles to. *)
Inductive op : Type :=
| AT_BOUNDARY                          (* \b *)
| LITERAL (c : ascii)                  (* one character *)
| LITERAL_IGNORE (c : ascii)           (* one character, IGNORECASE *)
| MAX_REPEAT_NOT_LITERAL (c : ascii).  (* [^c]*, greedy *)

Definition word_opt (o : option ascii) : bool :=
  match o with Some c => is_word c | None => false end.

Definition word_before (t : text) (i : nat) : bool :=
  match i with 0 => false | S j => word_opt (t !! j) end.

(** [\b] at position [i]: the characters on the two sides differ in
    being word characters; outside the text counts as a non-word
    character. *)
Definition at_boundary (t : text) (i : nat) : bool :=
  xorb (word_before t i) (word_opt (t !! i)).

(** Length of the longest prefix of [t] without [c]. *)
Fixpoint span_not (c : ascii) (t : text) : nat :=
  match t with
  | d :: r => if Ascii.eqb d c then 0 else S (span_not c r)
  | [] => 0
  end.

(** Greedy repetition: the continuation [k] is tried after [count]
    repetitions, then after one fewer, down to none. *)
Fixpoint backtrack (k : nat -> option nat) (count : nat) : option nat :=
  match k count with
  | Some e => Some e
  | None => match count with 0 => None | S n => backtrack k n end
  end.

(** [sre_match p t i]: the end of the match of [p] that starts at [i],
    the first one in backtracking order. *)
Fixpoint sre_match (p : list op) (t : text) (i : nat) : option nat :=
  match p with
  | [] => Some i
  | AT_BOUNDARY :: p' => if at_boundary t i then sre_match p' t i else None
  | LITERAL c :: p' =>
      match t !! i with
      | Some d => if Ascii.eqb d c then sre_match p' t (S i) else None
      | None => None
      end
  | LITERAL_IGNORE c :: p' =>
      match t !! i with
      | Some d => if Ascii.eqb (lower d) (lower c) then sre_match p' t (S i) else None
      | None => None
      end
  | MAX_REPEAT_NOT_LITERAL c :: p' =>
      backtrack (fun count => sre_match p' t (i + count)) (span_not c (drop i t))
  end.

(** The scan of [finditer]: the pattern is tried at [pos]; after a
    match the scan resumes at its end, after a failure one character
    further. The matches of the extractor's pattern end in a period and
    are never empty, so the engine's rule for empty matches is not
    modelled. [fuel] bounds the positions tried. *)
Fixpoint scan (fuel : nat) (p : list op) (t : text) (pos : nat) : list (nat * nat) :=
  match fuel with
  | 0 => []
  | S f =>
      if (length t <? pos)%nat then []
      else match sre_match p t pos with
           | Some e => (pos, e) :: scan f p t e
           | None => scan f p t (S pos)
           end
  end.

Definition finditer (p : list op) (t : text) : list (nat * nat) :=
  scan (S (length t)) p t 0.

(** [re.findall]: the matched substrings, in order. *)
Definition findall (p : list op) (t : text) : list text :=
  map (fun m => slice t (fst m) (snd m)) (finditer p t).

(** The pattern built on line 116,
    [r'[^.]*\b' + re.escape(keyword) + r'\b[^.]*\.'] under IGNORECASE:
    [re.escape] makes every character of the keyword a literal. *)
Definition sentence_pattern (keyword : text) : list op :=
  [MAX_REPEAT_NOT_LITERAL period; AT_BOUNDARY]
  ++ map LITERAL_IGNORE keyword
  ++ [AT_BOUNDARY; MAX_REPEAT_NOT_LITERAL period; LITERAL period].

(** ** Exceptions *)

Inductive exn : Type :=
| KeyError | IndexError | AttributeError | TypeError
| JSONDecodeError | ConnectionError | Timeout.

Inductive result (A : Type) : Type :=
| Ok (a : A)
| Raise (e : exn).
Arguments Ok {A} a.
Arguments Raise {A} e.

(** A [for] loop whose body updates a state and may raise: the first
    exception ends the loop. *)
Fixpoint for_each {A S : Type} (body : S -> A -> result S) (s : S) (l : list A) : result S :=
  match l with
  | [] => Ok s
  | x :: r =>
      match body s x with
      | Ok s' => for_each body s' r
      | Raise e => Raise e
      end
  end.

(** ** The keyword catalog (lines 34-50) *)

Definition ESG_KEYWORDS : list (string * list string) :=
  [ ("Environmental",
      ["climate change"; "carbon emissions"; "greenhouse gas"; "renewable energy";
       "environmental impact"; "sustainability"; "carbon footprint"; "net zero";
       "clean energy"; "environmental matters"; "climate risk"; "emissions reduction"]);
    ("Social",
      ["human capital"; "employee"; "workforce"; "diversity"; "inclusion";
       "health and safety"; "labor practices"; "community"; "human rights";
       "employee benefits"; "talent"; "workplace"]);
    ("Governance",
      ["board of directors"; "corporate governance"; "ethics"; "compliance";
       "risk management"; "audit committee"; "executive compensation";
       "shareholder rights"; "anti-corruption"; "code of conduct"]) ].

(** ** The span extractor (lines 96-125) *)

(** The dict [results] of line 106. *)
Definition initial_results : gmap string (list text) :=
  <["Governance" := []]> (<["Social" := []]> (<["Environmental" := []]> ∅)).

(** Line 121. *)
Definition length_ok (cleaned : text) : bool :=
  (50 <? length cleaned)%nat && (length cleaned <? 500)%nat.

(** Lines 120-123, the body of the loop over the matches. The dict is
    indexed only once a match has passed the length filter. *)
Definition scan_match (category : string) (results : gmap string (list text))
    (m : text) : result (gmap string (list text)) :=
  let cleaned := strip m in
  if length_ok cleaned then
    match results !! category with
    | None => Raise KeyError
    | Some spans =>
        if bool_decide (cleaned ∈ spans) then Ok results
        else Ok (<[category := spans ++ [cleaned]]> results)
    end
  else Ok results.

(** Lines 116-123, the body of the loop over the keywords. *)
Definition scan_keyword (t : text) (category : string)
    (results : gmap string (list text)) (keyword : string)
    : result (gmap string (list text)) :=
  let pattern := sentence_pattern (s2t keyword) in
  let matches := findall pattern t in
  for_each (scan_match category) results (take 3 matches).

(** Lines 113-123. *)
Definition scan_category (t : text) (results : gmap string (list text))
    (entry : string * list string) : result (gmap string (list text)) :=
  for_each (scan_keyword t (fst entry)) results (snd entry).

(** Lines 106-125 for a catalog given as an argument. *)
Definition extract_with (catalog : list (string * list string)) (t : text)
    : result (gmap string (list text)) :=
  for_each (scan_category t) initial_results catalog.

(** [extract_esg_sections]. [get_text] stands for BeautifulSoup's
    [get_text(separator=' ', strip=True)] of the parsed document; the
    second argument of the source, the company name, is not used. *)
Definition extract_esg_sections (get_text : text -> text) (html_content : text)
    : result (gmap string (list text)) :=
  let t := get_text html_content in
  let t := collapse_whitespace t in
  extract_with ESG_KEYWORDS t.

(** ** The metrics aggregator (lines 128-140) *)

(** The numbers the aggregator produces: the int of the empty case, or
    the float that the true division of two ints returns, kept as the
    two operands of the division. [number_value] below is its value. *)
Inductive number : Type :=
| Int (z : Z)
| TrueDiv (num den : Z).

(** The integer nearest to [A / B], the even one of the two when two
    are equally near. *)
Definition round_half_even (A B : Z) : Z :=
  let q := (A / B)%Z in
  let r := (A mod B)%Z in
  if (2 * r <? B)%Z then q
  else if (B <? 2 * r)%Z then (q + 1)%Z
  else if Z.even q then q else (q + 1)%Z.

(** A pair [(A, B)] with [A / B] equal to [a / b] divided by [2 ^ e]. *)
Definition scaled (a b e : Z) : Z * Z :=
  if (0 <=? e)%Z then (a, (b * 2 ^ e)%Z) else ((a * 2 ^ (- e))%Z, b).

(** The exponent [e] for which [a / b] divided by [2 ^ e] lies between
    [2 ^ 52] and [2 ^ 53], found from the bit lengths of [a] and [b]. *)
Definition exponent_of (a b : Z) : Z :=
  let e0 := (Z.log2 a - Z.log2 b - 52)%Z in
  if (fst (scaled a b e0) / snd (scaled a b e0) <? 2 ^ 52)%Z then (e0 - 1)%Z else e0.

(** [a / b] on two ints, [a] not negative and [b] positive, as Python
    computes it: the quotient rounded to 53 significant bits, to the
    nearest and ties to even, given as a mantissa and an exponent of 2.
    [None] stands for what is not modelled: a negative operand or a
    divisor that is not positive, a quotient too large for a float, on
    which the division raises OverflowError, and a quotient below the
    normal range, which is rounded on a coarser grid. *)
Definition true_divide (a b : Z) : option (Z * Z) :=
  if (a <? 0)%Z || (b <=? 0)%Z then None
  else if (a =? 0)%Z then Some (0%Z, 0%Z)
  else
    let e1 := exponent_of a b in
    let m := round_half_even (fst (scaled a b e1)) (snd (scaled a b e1)) in
    let me := if (m =? 2 ^ 53)%Z then ((2 ^ 52)%Z, (e1 + 1)%Z) else (m, e1) in
    if (snd me <? -1074)%Z || (971 <? snd me)%Z then None else Some me.

(** The number with mantissa [m] and exponent [e]. *)
Definition float_value (m e : Z) : Q := (inject_Z m * 2 ^ e)%Q.

(** The value of a number of the aggregator. *)
Definition number_value (n : number) : option Q :=
  match n with
  | Int z => Some (inject_Z z)
  | TrueDiv a b =>
      match true_divide a b with
      | Some (m, e) => Some (float_value m e)
      | None => None
      end
  end.

(** [x] is a finite binary64 float: a mantissa of 53 bits and an
    exponent in the range of the format. *)
Definition binary64 (x : Q) : Prop :=
  exists m e, (Z.abs m < 2 ^ 53)%Z /\ (-1074 <= e <= 971)%Z /\ (x == float_value m e)%Q.

Record category_metrics : Type := {
  disclosure_count : nat;
  avg_length : number;
  sample : text
}.

Definition sum_lengths (items : list text) : nat :=
  foldr (fun s acc => length s + acc) 0 items.

(** Lines 134-138. *)
Definition metrics_of (items : list text) : category_metrics :=
  {| disclosure_count := length items;
     avg_length :=
       match items with
       | _ :: _ => TrueDiv (Z.of_nat (sum_lengths items)) (Z.of_nat (length items))
       | [] => Int 0
       end;
     sample :=
       match items with
       | first :: _ => take 200 first ++ s2t "..."
       | [] => s2t "No disclosure found"
       end |}.

Definition CATEGORIES : list string := ["Environmental"; "Social"; "Governance"].

Definition analyze_esg_disclosure (esg_data : gmap string (list text))
    : gmap string category_metrics :=
  foldl (fun metrics category =>
           let items := default [] (esg_data !! category) in
           <[category := metrics_of items]> metrics)
        ∅ CATEGORIES.

(** ** Notions used to state the properties *)

(** The keyword [k], compared without case, is a prefix of [u]. *)
Fixpoint keyword_at (k u : text) : bool :=
  match k, u with
  | [], _ => true
  | c :: k', d :: u' => Ascii.eqb (lower d) (lower c) && keyword_at k' u'
  | _ :: _, [] => false
  end.

(** The end of the sentence that position [j] lies in: one past the
    next period, when there is one. *)
Definition sentence_end (t : text) (j : nat) : option nat :=
  let q := j + span_not period (drop j t) in
  match t !! q with
  | Some _ => Some (S q)
  | None => None
  end.

(** What the pattern asks for once its first repetition has stopped at
    [i]: the keyword at [i] between two word boundaries, and a period
    ending the sentence. *)
Definition candidate (k t : text) (i : nat) : option nat :=
  if at_boundary t i && keyword_at k (drop i t) && at_boundary t (i + length k)
  then sentence_end t (i + length k)
  else None.

(** Position [s] starts a sentence: it is the start of the text or
    follows a period. *)
Definition sentence_start (t : text) (s : nat) : Prop :=
  s = 0 \/ t !! (s - 1) = Some period.

(** Two texts equal up to case. *)
Definition ci_equal (a b : text) : bool :=
  bool_decide (map lower a = map lower b).

(** [k] occurs in [x] at [i] as a whole word, case ignored. *)
Definition whole_word_at (k x : text) (i : nat) : bool :=
  ci_equal (slice x i (i + length k)) k
  && at_boundary x i && at_boundary x (i + length k).

Definition contains_whole_word (k x : text) : bool :=
  existsb (whole_word_at k x) (seq 0 (S (length x))).


(** [x] is a span that keyword [k] offers on text [t]: the stripped
    text of one of the first three matches, of an accepted length. *)
Definition candidate_span (t : text) (k : string) (x : text) : Prop :=
  exists m, m ∈ take 3 (findall (sentence_pattern (s2t k)) t) /\
            x = strip m /\ length_ok x = true.

(** [k] is a keyword of category [c] in the catalog. *)
Definition keyword_of (catalog : list (string * list string)) (c k : string) : Prop :=
  exists keywords, (c, keywords) ∈ catalog /\ k ∈ keywords.

(** The lists of [R'] extend those of [R] at their ends. *)
Definition grows (R R' : gmap string (list text)) : Prop :=
  forall c spans, R !! c = Some spans -> exists more, R' !! c = Some (spans ++ more).

(** Every stored span was offered by a keyword of its category. *)
Definition sourced (catalog : list (string * list string)) (t : text)
    (R : gmap string (list text)) : Prop :=
  forall c spans x, R !! c = Some spans -> x ∈ spans ->
    exists k, keyword_of catalog c k /\ candidate_span t k x.

(** No list holds a span twice. *)
Definition all_NoDup (R : gmap string (list text)) : Prop :=
  forall c spans, R !! c = Some spans -> NoDup spans.

(** Every span that keyword [k] offers is in the list of category [c]. *)
Definition covered (t : text) (R : gmap string (list text)) (c k : string) : Prop :=
  forall x, candidate_span t k x -> exists spans, R !! c = Some spans /\ x ∈ spans.


(** No keyword of the catalog has a period in it. *)
Definition period_free (catalog : list (string * list string)) : bool :=
  forallb (fun entry : string * list string =>
             forallb (fun k => negb (existsb (Ascii.eqb period) (s2t k))) (snd entry))
          catalog.

(** ** A sample run *)

Definition sample_text : text :=
  s2t "Our climate change policy is strong and the whole workforce follows it.  Another Climate Change note that is long enough to be taken here. x climate change".

Definition sample_span : text :=
  s2t "Our climate change policy is strong and the whole workforce follows it.".

Definition sample_spans : list text :=
  [sample_span; s2t "Another Climate Change note that is long enough to be taken here."].

(** What the extractor returns on [sample_text]. *)
Definition sample_results : gmap string (list text) :=
  <["Governance" := []]>
    (<["Social" := [sample_span]]> (<["Environmental" := sample_spans]> ∅)).

(** No period in [t] from position [i] on. *)
Definition period_free_from (t : text) (i : nat) : bool :=
  forallb (fun d => negb (Ascii.eqb d period)) (drop i t).

(** Three short sentences, two of them with the keyword. *)
Definition short_text : text :=
  s2t "Our climate change policy is strong. Unrelated sentence. Another climate change note.".

(** Four sentences with the keyword "net zero", each of an accepted
    length. *)
Definition four_sentences : list text :=
  [ s2t "Net zero is the first goal that we have set for every site.";
    s2t "We plan to reach net zero within the next ten years for all.";
    s2t "The road to net zero is reviewed by the board every quarter.";
    s2t "Suppliers are asked to commit to net zero by the same date." ].

Definition four_text : text :=
  s2t "Net zero is the first goal that we have set for every site. We plan to reach net zero within the next ten years for all. The road to net zero is reviewed by the board every quarter. Suppliers are asked to commit to net zero by the same date.".


(** ** Parsed JSON and the Python operations on it *)

#[warnings="-register-all"] Inductive json : Type :=
| JNull
| JBool (b : bool)
| JNumber (z : Z)
| JString (s : text)
| JArray (items : list json)
| JObject (fields : list (string * json)).

Fixpoint assoc_get {V : Type} (key : string) (l : list (string * V)) : option V :=
  match l with
  | [] => None
  | (k, v) :: r => if String.eqb k key then Some v else assoc_get key r
  end.

(** [d[key] = v] on a dict kept in insertion order. *)
Fixpoint assoc_set {V : Type} (key : string) (v : V) (l : list (string * V))
    : list (string * V) :=
  match l with
  | [] => [(key, v)]
  | (k, v') :: r => if String.eqb k key then (k, v) :: r else (k, v') :: assoc_set key v r
  end.

Definition result_bind {A B : Type} (m : result A) (f : A -> result B) : result B :=
  match m with
  | Ok a => f a
  | Raise e => Raise e
  end.

Notation "'doR' x <- m ; k" := (result_bind m (fun x => k))
  (at level 60, x name, m at next level, right associativity).

(** [v.get(key, default)]: only a dict has the method. *)
Definition py_get (v : json) (key : string) (dflt : json) : result json :=
  match v with
  | JObject fields => Ok (default dflt (assoc_get key fields))
  | _ => Raise AttributeError
  end.

(** The items that [enumerate(v)] goes through: the elements of a list,
    the keys of a dict, the characters of a string. *)
Definition py_iter (v : json) : result (list json) :=
  match v with
  | JArray items => Ok items
  | JObject fields => Ok (map (fun kv => JString (s2t (fst kv))) fields)
  | JString s => Ok (map (fun c => JString [c]) s)
  | _ => Raise TypeError
  end.

(** [v[i]] for an index [i] that is an int, not negative. *)
Definition py_index (v : json) (i : nat) : result json :=
  match v with
  | JArray items =>
      match items !! i with Some x => Ok x | None => Raise IndexError end
  | JString s =>
      match s !! i with Some c => Ok (JString [c]) | None => Raise IndexError end
  | JObject _ => Raise KeyError
  | _ => Raise TypeError
  end.

(** [v.replace('-', '')]: only a string has the method. *)
Definition py_remove_dashes (v : json) : result text :=
  match v with
  | JString s => Ok (filter (fun c => c <> "-"%char) s)
  | _ => Raise AttributeError
  end.

(** [v == s] for a string [s]. *)
Definition py_eq_str (v : json) (s : text) : bool :=
  match v with
  | JString s' => bool_decide (s' = s)
  | _ => false
  end.

(** ** The filing fetcher (lines 53-93) *)

Record filing : Type := {
  form : json;
  accession : text;
  date : json;
  document : json;
  cik_of : text
}.

(** Lines 72-79, the body of the loop over [enumerate(forms)]. *)
Definition add_filing (cik filing_type : text) (count : Z)
    (accessions dates docs : json) (results : list filing) (item : nat * json)
    : result (list filing) :=
  let i := fst item in
  let form := snd item in
  if py_eq_str form filing_type && (Z.of_nat (length results) <? count)%Z then
    doR a <- py_index accessions i;
    doR acc <- py_remove_dashes a;
    doR d <- py_index dates i;
    doR doc <- py_index docs i;
    Ok (results ++ [ {| form := form; accession := acc; date := d;
                        document := doc; cik_of := cik |} ])
  else Ok results.

(** Lines 63-81: the filings listed in the parsed metadata [data]. *)
Definition filings_of_metadata (cik filing_type : text) (count : Z) (data : json)
    : result (list filing) :=
  doR filings <- py_get data "filings" (JObject []);
  doR filings <- py_get filings "recent" (JObject []);
  doR forms <- py_get filings "form" (JArray []);
  doR accessions <- py_get filings "accessionNumber" (JArray []);
  doR dates <- py_get filings "filingDate" (JArray []);
  doR docs <- py_get filings "primaryDocument" (JArray []);
  doR items <- py_iter forms;
  for_each (add_filing cik filing_type count accessions dates docs) []
           (zip (seq 0 (length items)) items).

(** ** The network and the output file *)

(** A GET request. The URL of a document is kept as the three values
    that are formatted into it. *)
Inductive request : Type :=
| Submissions (cik : text)
| Archive (cik : text) (accession : text) (document : json).

(** [response.json()] raises when the body is not JSON: [body_json] is
    [None] then. *)
Record response : Type := {
  status_code : Z;
  body_json : option json;
  body_text : text
}.

(** What [main] stores for a company (lines 190-194). *)
Record company_result : Type := {
  filing_date : json;
  esg_data : gmap string (list text);
  metrics : gmap string category_metrics
}.

(** The world a run acts on: the requests sent so far, and the content
    of esg_extraction_results.json, [None] while the run has not
    written it. The run timestamp in the file is left out. *)
Record world : Type := {
  requests_made : list request;
  artifact : option (list (string * company_result))
}.

Definition io (A : Type) : Type := world -> result A * world.

Definition ret {A : Type} (a : A) : io A := fun w => (Ok a, w).

Definition bind {A B : Type} (m : io A) (f : A -> io B) : io B :=
  fun w =>
    match m w with
    | (Ok a, w') => f a w'
    | (Raise e, w') => (Raise e, w')
    end.

Notation "'doIO' x <- m ; k" := (bind m (fun x => k))
  (at level 60, x name, m at next level, right associativity).

(** A computation that touches neither the network nor the file. *)
Definition lift {A : Type} (r : result A) : io A := fun w => (r, w).

Definition log_request (w : world) (rq : request) : world :=
  {| requests_made := requests_made w ++ [rq]; artifact := artifact w |}.

Definition write_artifact (out : list (string * company_result)) : io unit :=
  fun w => (Ok tt, {| requests_made := requests_made w; artifact := Some out |}).

Fixpoint io_for_each {A S : Type} (body : S -> A -> io S) (s : S) (l : list A) : io S :=
  match l with
  | [] => ret s
  | x :: r => doIO s' <- body s x; io_for_each body s' r
  end.

(** [s.lstrip('0')] *)
Fixpoint lstrip_zeros (s : text) : text :=
  match s with
  | c :: r => if Ascii.eqb c "0"%char then lstrip_zeros r else s
  | [] => []
  end.

(** Lines 26-31. *)
Definition COMPANIES : list (string * text) :=
  [ ("Apple", s2t "0000320193");
    ("Alphabet (Google)", s2t "0001652044");
    ("Tesla", s2t "0001318605") ].

Section Driver.
(** BeautifulSoup's text extraction, and the network: what
    [requests.get] gives for a request, a response or an exception. *)
Variable get_text : text -> text.
Variable net : request -> result response.

Definition requests_get (rq : request) : io response :=
  fun w => (net rq, log_request w rq).

Definition response_json (r : response) : result json :=
  match body_json r with
  | Some v => Ok v
  | None => Raise JSONDecodeError
  end.

(** Lines 53-81. *)
Definition get_company_filings (cik filing_type : text) (count : Z) : io (list filing) :=
  doIO response <- requests_get (Submissions cik);
  if negb (status_code response =? 200)%Z then ret []
  else
    doIO data <- lift (response_json response);
    lift (filings_of_metadata cik filing_type count data).

(** Lines 84-93. *)
Definition get_filing_content (cik accession : text) (document : json) : io (option text) :=
  doIO response <- requests_get (Archive (lstrip_zeros cik) accession document);
  if negb (status_code response =? 200)%Z then ret None
  else ret (Some (body_text response)).

(** Lines 197-201: the lookups of the report printed for a company. *)
Definition print_report (esg_data : gmap string (list text))
    (metrics : gmap string category_metrics) : result unit :=
  for_each (fun _ category =>
              match metrics !! category, esg_data !! category with
              | Some _, Some _ => Ok tt
              | _, _ => Raise KeyError
              end) tt CATEGORIES.

(** Lines 155-203, the body of the loop over the companies; [continue]
    gives back the results as they were. Printing and sleeping are
    left out. *)
Definition process_company (all_results : list (string * company_result))
    (entry : string * text) : io (list (string * company_result)) :=
  let company := fst entry in
  let cik := snd entry in
  doIO filings <- get_company_filings cik (s2t "10-K") 1;
  match filings with
  | [] => ret all_results
  | filing :: _ =>
      doIO content <- get_filing_content cik (accession filing) (document filing);
      match content with
      | None | Some [] => ret all_results
      | Some content =>
          doIO esg_data <- lift (extract_esg_sections get_text content);
          let metrics := analyze_esg_disclosure esg_data in
          let all_results :=
            assoc_set company
              {| filing_date := date filing; esg_data := esg_data; metrics := metrics |}
              all_results in
          doIO _ <- lift (print_report esg_data metrics);
          ret all_results
      end
  end.

(** [main] for a given list of companies. The summary table, which is
    only printed, is left out. *)
Definition main_with (companies : list (string * text))
    : io (list (string * company_result)) :=
  doIO all_results <- io_for_each process_company [] companies;
  doIO _ <- write_artifact all_results;
  ret all_results.

Definition main : io (list (string * company_result)) := main_with COMPANIES.
End Driver.

(** ** Sample worlds and networks *)

Definition empty_world : world := {| requests_made := []; artifact := None |}.

(** A network without a connection. *)
Definition failing_net (rq : request) : result response := Raise ConnectionError.

(** A server that answers every request with status 404. *)
Definition not_found_net (rq : request) : result response :=
  Ok {| status_code := 404; body_json := None; body_text := [] |}.

(** Metadata in which a form has no accession number. *)
Definition short_metadata : json :=
  JObject [("filings",
    JObject [("recent",
      JObject [("form", JArray [JString (s2t "10-K")]);
               ("accessionNumber", JArray []);
               ("filingDate", JArray []);
               ("primaryDocument", JArray [])])])].

(** Metadata with a list of forms and no other list. *)
Definition forms_only_metadata : json :=
  JObject [("filings",
    JObject [("recent", JObject [("form", JArray [JString (s2t "10-K")])])])].

Definition good_metadata : json :=
  JObject [("filings",
    JObject [("recent",
      JObject [("form", JArray [JString (s2t "8-K"); JString (s2t "10-K")]);
               ("accessionNumber",
                  JArray [JString (s2t "0000320193-24-000001");
                          JString (s2t "0000320193-23-000106")]);
               ("filingDate",
                  JArray [JString (s2t "2024-01-05"); JString (s2t "2023-11-03")]);
               ("primaryDocument",
                  JArray [JString (s2t "a8k.htm"); JString (s2t "aapl-20230930.htm")])])])].

(** A server that has the filing of the first company and answers 404
    to every other request. *)
Definition sample_net (rq : request) : result response :=
  match rq with
  | Submissions cik =>
      if bool_decide (cik = s2t "0000320193")
      then Ok {| status_code := 200; body_json := Some good_metadata; body_text := [] |}
      else Ok {| status_code := 404; body_json := None; body_text := [] |}
  | Archive cik acc doc =>
      if bool_decide (cik = s2t "320193")
      then Ok {| status_code := 200; body_json := None; body_text := sample_text |}
      else Ok {| status_code := 404; body_json := None; body_text := [] |}
  end.

(** The same server, with the connection lost once the first company
    has been served. *)
Definition dropping_net (rq : request) : result response :=
  match rq with
  | Submissions cik =>
      if bool_decide (cik = s2t "0000320193") then sample_net rq else Raise Timeout
  | Archive _ _ _ => sample_net rq
  end.


(** The 256 characters. *)
Definition all_chars : list ascii := map ascii_of_nat (seq 0 256).


(** The arithmetic mean of the lengths of the spans, as a rational. *)
Definition mean_length (items : list text) : Q :=
  (inject_Z (Z.of_nat (list_sum (map length items)))
   / inject_Z (Z.of_nat (length items)))%Q.

(** The lengths are lengths that Python objects can have: below
    [2 ^ 63], the bound [sys.maxsize] of a length. *)
Definition ssize_ok (items : list text) : bool :=
  (Z.of_nat (length items) <? 2 ^ 63)%Z
  && forallb (fun s => (Z.of_nat (length s) <? 2 ^ 63)%Z) items.

(** Three spans of 51, 52 and 52 characters. *)
Definition uneven_spans : list text :=
  [ s2t "Climate change is a risk that the board reviews now";
    s2t "Carbon emissions of all the sites fell again in 2023";
    s2t "Renewable energy now covers most of our power needs." ].

Definition uneven_data : gmap string (list text) :=
  <["Environmental" := uneven_spans]> ∅.

(** ** Notions used for the further properties *)

(** The text from [s] up to [e] is one sentence: it starts the text or
    follows a period, and its only period is its last character. *)
Definition sentence (t : text) (s e : nat) : Prop :=
  sentence_start t s /\ s < e /\ t !! (e - 1) = Some period /\
  forall j, s <= j < e - 1 -> t !! j <> Some period.

(** The matches of a list lie in the text one after the other, from
    [pos] on, without overlap. *)
Fixpoint in_order (t : text) (pos : nat) (l : list (nat * nat)) : Prop :=
  match l with
  | [] => True
  | (s, e) :: r => pos <= s /\ s < e /\ e <= length t /\ in_order t e r
  end.

(** [results[category].append(cleaned)] under the test of line 122, on
    the list alone. *)
Definition append_new (spans : list text) (x : text) : list text :=
  if bool_decide (x ∈ spans) then spans else spans ++ [x].

(** The stripped texts of the first three matches of a keyword that
    pass the length filter, in the order of the matches. *)
Definition accepted (t : text) (k : string) : list text :=
  List.filter length_ok (map strip (take 3 (findall (sentence_pattern (s2t k)) t))).

(** The list of a category once a keyword has been gone through, and
    once all the keywords of the category have. *)
Definition keyword_spans (t : text) (spans : list text) (k : string) : list text :=
  foldl append_new spans (accepted t k).

Definition category_spans (t : text) (keywords : list string) : list text :=
  foldl (keyword_spans t) [] keywords.

(** The two dicts have the same keys. *)
Definition same_keys (R R' : gmap string (list text)) : Prop :=
  forall c, R !! c = None <-> R' !! c = None.

(** A keyword of a category that is none of the three offers a span. *)
Definition foreign_span (catalog : list (string * list string)) (t : text) : Prop :=
  exists c k x, keyword_of catalog c k /\ (c ∉ CATEGORIES) /\ candidate_span t k x.

(** A catalog with a category of its own. *)
Definition other_catalog : list (string * list string) :=
  [("Environmental", ["net zero"]); ("Climate", ["climate change"])].

(** A catalog of three keywords in two categories. *)
Definition small_catalog : list (string * list string) :=
  [("Environmental", ["climate change"; "net zero"]); ("Social", ["workforce"])].

(** Data with an empty list, and with a key that is no category. *)
Definition odd_data : gmap string (list text) :=
  <["Social" := []]> (<["Other" := [sample_span]]> ∅).

(** One line of well-formed metadata: the entries that the four
    parallel lists have at one index. *)
Record row : Type := {
  row_form : text;
  row_accession : text;
  row_date : json;
  row_document : json
}.

(** The metadata whose four lists hold the given rows. *)
Definition metadata_of (rows : list row) : json :=
  JObject [("filings",
    JObject [("recent",
      JObject [("form", JArray (map (fun r => JString (row_form r)) rows));
               ("accessionNumber", JArray (map (fun r => JString (row_accession r)) rows));
               ("filingDate", JArray (map row_date rows));
               ("primaryDocument", JArray (map row_document rows))])])].

(** The filing record of a row. *)
Definition filing_of_row (cik : text) (r : row) : filing :=
  {| form := JString (row_form r);
     accession := filter (fun c => c <> "-"%char) (row_accession r);
     date := row_date r;
     document := row_document r;
     cik_of := cik |}.

(** The rows of a form type, as filing records. *)
Definition filings_of_rows (cik filing_type : text) (rows : list row) : list filing :=
  map (filing_of_row cik) (filter (fun r => row_form r = filing_type) rows).

Definition sample_rows : list row :=
  [ {| row_form := s2t "8-K"; row_accession := s2t "0000320193-24-000001";
       row_date := JString (s2t "2024-01-05"); row_document := JString (s2t "a8k.htm") |};
    {| row_form := s2t "10-K"; row_accession := s2t "0000320193-23-000106";
       row_date := JString (s2t "2023-11-03");
       row_document := JString (s2t "aapl-20230930.htm") |};
    {| row_form := s2t "10-K"; row_accession := s2t "0000320193-22-000108";
       row_date := JString (s2t "2022-10-28");
       row_document := JString (s2t "aapl-20220924.htm") |} ].

(** ** The summary table (lines 210-220) *)

Record summary_row : Type := {
  company_name : string;
  filing_date_of : json;
  environmental : nat;
  social : nat;
  governance : nat;
  total_esg : nat
}.

(** [data['metrics'][category]['disclosure_count']] *)
Definition count_of (metrics : gmap string category_metrics) (category : string)
    : result nat :=
  match metrics !! category with
  | Some m => Ok (disclosure_count m)
  | None => Raise KeyError
  end.

(** Lines 212-219, the row of one company. *)
Definition summary_row_of (item : string * company_result) : result summary_row :=
  doR env <- count_of (metrics (snd item)) "Environmental";
  doR soc <- count_of (metrics (snd item)) "Social";
  doR gov <- count_of (metrics (snd item)) "Governance";
  Ok {| company_name := fst item;
        filing_date_of := filing_date (snd item);
        environmental := env;
        social := soc;
        governance := gov;
        total_esg := env + soc + gov |}.

(** Lines 210-220. *)
Definition summary_data (all_results : list (string * company_result))
    : result (list summary_row) :=
  for_each (fun rows item => doR row <- summary_row_of item; Ok (rows ++ [row]))
           [] all_results.

(** The row of a company, read off its span lists. *)
Definition spans_in (data : company_result) (category : string) : nat :=
  length (default [] (esg_data data !! category)).

Definition summary_of (item : string * company_result) : summary_row :=
  {| company_name := fst item;
     filing_date_of := filing_date (snd item);
     environmental := spans_in (snd item) "Environmental";
     social := spans_in (snd item) "Social";
     governance := spans_in (snd item) "Governance";
     total_esg := spans_in (snd item) "Environmental" + spans_in (snd item) "Social"
                  + spans_in (snd item) "Governance" |}.

(** An entry as [main] builds it: its metrics are those of its span
    lists, and its span lists are those of the three categories. *)
Definition consistent (data : company_result) : Prop :=
  metrics data = analyze_esg_disclosure (esg_data data) /\
  forall c, is_Some (esg_data data !! c) <-> c ∈ CATEGORIES.



(** What a run against [sample_net] returns, and the world it leaves. *)
Definition sample_run : list (string * company_result) :=
  [ ("Apple", {| filing_date := JString (s2t "2023-11-03");
                 esg_data := sample_results;
                 metrics := analyze_esg_disclosure sample_results |}) ].

Definition sample_run_world : world :=
  {| requests_made :=
       [ Submissions (s2t "0000320193");
         Archive (s2t "320193") (s2t "000032019323000106") (JString (s2t "aapl-20230930.htm"));
         Submissions (s2t "0001652044");
         Submissions (s2t "0001318605") ];
     artifact := Some sample_run |}.

(* ================================================================= *)
(** * Properties *)

(** ** Characters *)

Lemma all_chars_complete (c : ascii) : c ∈ all_chars.
Proof.
  apply list_elem_of_In, in_map_iff. exists (nat_of_ascii c). split.
  - apply ascii_nat_embedding.
  - apply in_seq. pose proof (nat_ascii_bounded c). lia.
Qed.

(** A property of characters that a computation settles on all 256. *)
Lemma for_all_chars (P : ascii -> bool) :
  forallb P all_chars = true -> forall c, P c = true.
Proof.
  intros H c. rewrite forallb_forall in H. apply H, list_elem_of_In, all_chars_complete.
Qed.

Lemma word_not_space (c : ascii) : is_word c = true -> isspace c = false.
Proof.
  intros H. pose proof (for_all_chars (fun c => implb (is_word c) (negb (isspace c)))
                          eq_refl c) as Hc.
  simpl in Hc. rewrite H in Hc. simpl in Hc. by apply negb_true_iff.
Qed.

Lemma period_not_space : isspace period = false.
Proof. reflexivity. Qed.

Lemma period_not_word : is_word period = false.
Proof. reflexivity. Qed.

Lemma lower_period (c : ascii) : lower c = lower period -> c = period.
Proof.
  intros H. pose proof (for_all_chars
    (fun c => implb (Ascii.eqb (lower c) (lower period)) (Ascii.eqb c period)) eq_refl c) as Hc.
  simpl in Hc. rewrite H, Ascii.eqb_refl in Hc. simpl in Hc. by apply Ascii.eqb_eq.
Qed.

Lemma sub_spaces_spaces (in_run : bool) (t : text) (c : ascii) :
  c ∈ sub_spaces in_run t -> isspace c = true -> c = " "%char.
Proof.
  revert in_run. induction t as [|d t IH]; intros in_run; simpl; [by intros ?%elem_of_nil|].
  destruct (isspace d) eqn:E.
  - destruct in_run; [apply IH|]. intros [->|Hin]%elem_of_cons Hc; [done|].
    by apply (IH true).
  - intros [->|Hin]%elem_of_cons Hc; [congruence|]. by apply (IH false).
Qed.

(** After the collapsing of whitespace the only whitespace character
    left is the space. *)
Lemma collapse_whitespace_spaces (t : text) (c : ascii) :
  c ∈ collapse_whitespace t -> isspace c = true -> c = " "%char.
Proof. apply sub_spaces_spaces. Qed.

(** ** The matcher on the sentence pattern *)

Lemma span_not_le (c : ascii) (u : text) : span_not c u <= length u.
Proof. induction u as [|d u IH]; simpl; [lia|]. destruct (Ascii.eqb d c); simpl; lia. Qed.

Lemma span_not_lookup (c : ascii) (u : text) (j : nat) :
  j < span_not c u -> exists d, u !! j = Some d /\ d <> c.
Proof.
  revert j. induction u as [|d u IH]; simpl; intros j Hj; [lia|].
  destruct (Ascii.eqb d c) eqn:E; [lia|].
  destruct j as [|j]; simpl.
  - exists d. split; [done|]. by apply Ascii.eqb_neq.
  - apply IH. lia.
Qed.

Lemma span_not_end (c : ascii) (u : text) (d : ascii) :
  u !! span_not c u = Some d -> d = c.
Proof.
  induction u as [|a u IH]; simpl; [done|].
  destruct (Ascii.eqb a c) eqn:E; simpl.
  - intros [= <-]. by apply Ascii.eqb_eq.
  - exact IH.
Qed.

Lemma span_not_step (c : ascii) (t : text) (s : nat) (d : ascii) :
  t !! s = Some d -> d <> c ->
  span_not c (drop s t) = S (span_not c (drop (S s) t)).
Proof.
  intros Hs Hd. rewrite (drop_S t d s Hs). simpl.
  apply Ascii.eqb_neq in Hd. by rewrite Hd.
Qed.

Lemma backtrack_ext (k1 k2 : nat -> option nat) (n : nat) :
  (forall c, k1 c = k2 c) -> backtrack k1 n = backtrack k2 n.
Proof. intros H. induction n as [|n IH]; simpl; rewrite H; [done|]. by rewrite IH. Qed.

Lemma backtrack_Some (k : nat -> option nat) (n e : nat) :
  backtrack k n = Some e -> exists c, c <= n /\ k c = Some e.
Proof.
  induction n as [|n IH]; simpl.
  - destruct (k 0) eqn:E; [|done]. intros [= <-]. exists 0. split; [lia|done].
  - destruct (k (S n)) eqn:E.
    + intros [= <-]. exists (S n). split; [lia|done].
    + intros H. destruct (IH H) as (c & Hc & Hk). exists c. split; [lia|done].
Qed.

Lemma backtrack_last (k : nat -> option nat) (n : nat) :
  (forall c, c < n -> k c = None) -> backtrack k n = k n.
Proof.
  intros H. destruct n as [|n]; simpl; destruct (k _) eqn:E; try done.
  clear E. induction n as [|n IH]; simpl.
  - rewrite H; [done|lia].
  - rewrite H; [|lia]. apply IH. intros c Hc. apply H. lia.
Qed.

(** Starting one character earlier adds one last alternative. *)
Lemma backtrack_shift (f : nat -> option nat) (s m : nat) :
  backtrack (fun c => f (s + c)) (S m) =
  match backtrack (fun c => f (S s + c)) m with
  | Some e => Some e
  | None => f s
  end.
Proof.
  induction m as [|m IH].
  - simpl. replace (s + 1) with (S (s + 0)) by lia.
    destruct (f (S (s + 0))); [done|]. rewrite Nat.add_0_r. by destruct (f s).
  - change (backtrack (fun c => f (s + c)) (S (S m))) with
      (match f (s + S (S m)) with
       | Some e => Some e
       | None => backtrack (fun c => f (s + c)) (S m)
       end).
    rewrite IH. simpl. replace (s + S (S m)) with (S (s + S m)) by lia.
    by destruct (f (S (s + S m))).
Qed.

Lemma sre_match_keyword (k : text) (p : list op) (t : text) (i : nat) :
  sre_match (map LITERAL_IGNORE k ++ p) t i =
  if keyword_at k (drop i t) then sre_match p t (i + length k) else None.
Proof.
  revert i. induction k as [|c k IH]; intros i; simpl.
  - by rewrite Nat.add_0_r.
  - destruct (t !! i) as [d|] eqn:E.
    + rewrite (drop_S t d i E). destruct (Ascii.eqb (lower d) (lower c)); simpl; [|done].
      rewrite IH. by replace (S i + length k) with (i + S (length k)) by lia.
    + apply lookup_ge_None in E. by rewrite drop_ge.
Qed.

Lemma sre_match_sentence_end (t : text) (j : nat) :
  sre_match [MAX_REPEAT_NOT_LITERAL period; LITERAL period] t j = sentence_end t j.
Proof.
  simpl. rewrite backtrack_last.
  - unfold sentence_end. destruct (t !! (j + span_not period (drop j t))) as [d|] eqn:E; [|done].
    rewrite <- lookup_drop in E. apply span_not_end in E as ->. by rewrite Ascii.eqb_refl.
  - intros c Hc. destruct (span_not_lookup _ _ _ Hc) as (d & Hd & Hne).
    rewrite lookup_drop in Hd. rewrite Hd. apply Ascii.eqb_neq in Hne. by rewrite Hne.
Qed.

(** The match of the whole pattern at [s]: the candidates are tried from
    the end of the period-free run that starts at [s] back to [s]. *)
Lemma sre_match_sentence (k t : text) (s : nat) :
  sre_match (sentence_pattern k) t s =
  backtrack (fun c => candidate k t (s + c)) (span_not period (drop s t)).
Proof.
  unfold sentence_pattern. simpl. apply backtrack_ext. intros c.
  unfold candidate. destruct (at_boundary t (s + c)); simpl; [|done].
  rewrite sre_match_keyword. destruct (keyword_at k (drop (s + c) t)); simpl; [|done].
  destruct (at_boundary t (s + c + length k)); [|done].
  apply sre_match_sentence_end.
Qed.

Lemma sentence_end_Some (t : text) (j e : nat) :
  sentence_end t j = Some e ->
  j < e /\ e <= length t /\ t !! (e - 1) = Some period /\
  (forall i, j <= i < e - 1 -> exists d, t !! i = Some d /\ d <> period).
Proof.
  unfold sentence_end. destruct (t !! (j + span_not period (drop j t))) as [d|] eqn:E; [|done].
  intros [= <-]. pose proof (lookup_lt_Some _ _ _ E) as Hlt.
  pose proof E as E'. rewrite <- lookup_drop in E'. apply span_not_end in E' as ->.
  replace (S (j + span_not period (drop j t)) - 1) with (j + span_not period (drop j t)) by lia.
  repeat split; [lia|lia|done|].
  intros i Hi. destruct (span_not_lookup period (drop j t) (i - j)) as (d & Hd & Hne); [lia|].
  rewrite lookup_drop in Hd. replace (j + (i - j)) with i in Hd by lia. eauto.
Qed.

Lemma candidate_Some (k t : text) (i e : nat) :
  candidate k t i = Some e ->
  at_boundary t i = true /\ keyword_at k (drop i t) = true /\
  at_boundary t (i + length k) = true /\ sentence_end t (i + length k) = Some e.
Proof.
  unfold candidate.
  destruct (at_boundary t i), (keyword_at k (drop i t)), (at_boundary t (i + length k));
    simpl; try done.
Qed.

(** What a match of the sentence pattern is made of. *)
Lemma sre_match_sentence_Some (k t : text) (s e : nat) :
  sre_match (sentence_pattern k) t s = Some e ->
  exists i, s <= i /\ candidate k t i = Some e /\
    (forall j, s <= j < i -> exists d, t !! j = Some d /\ d <> period).
Proof.
  rewrite sre_match_sentence. intros H.
  apply backtrack_Some in H as (c & Hc & Hk). exists (s + c). split; [lia|]. split; [done|].
  intros j Hj. destruct (span_not_lookup period (drop s t) (j - s)) as (d & Hd & Hne); [lia|].
  rewrite lookup_drop in Hd. replace (s + (j - s)) with j in Hd by lia. eauto.
Qed.

(** A match that starts inside a sentence also starts one character
    earlier: the scan meets it at the start of the sentence. *)
Lemma sre_match_sentence_earlier (k t : text) (s e : nat) (d : ascii) :
  t !! s = Some d -> d <> period ->
  sre_match (sentence_pattern k) t (S s) = Some e ->
  sre_match (sentence_pattern k) t s = Some e.
Proof.
  intros Hs Hd. rewrite !sre_match_sentence, (span_not_step _ _ _ _ Hs Hd), backtrack_shift.
  by intros ->.
Qed.

(** ** The scan *)

Section Scan.
Variables (k t : text).
Let p := sentence_pattern k.

Lemma match_bounds (s e : nat) :
  sre_match p t s = Some e -> s < e /\ e <= length t /\ t !! (e - 1) = Some period.
Proof.
  intros H. apply sre_match_sentence_Some in H as (i & Hi & Hc & _).
  apply candidate_Some in Hc as (_ & _ & _ & He).
  apply sentence_end_Some in He as (? & ? & ? & _). repeat split; [lia|done|done].
Qed.

(** A position where the pattern matches starts a sentence, as soon
    as the pattern did not match one character earlier. *)
Lemma start_after_failure (pos : nat) :
  sre_match p t pos = None ->
  forall e, sre_match p t (S pos) = Some e -> sentence_start t (S pos).
Proof.
  intros Hnone e He. right. replace (S pos - 1) with pos by lia.
  destruct (t !! pos) as [d|] eqn:E.
  - destruct (decide (d = period)) as [->|Hd]; [done|].
    pose proof (sre_match_sentence_earlier k t pos e d E Hd He) as H.
    unfold p in Hnone. congruence.
  - apply lookup_ge_None in E. apply match_bounds in He. lia.
Qed.

Lemma scan_sound (fuel pos : nat) :
  (forall e, sre_match p t pos = Some e -> sentence_start t pos) ->
  forall s e, (s, e) ∈ scan fuel p t pos ->
    pos <= s /\ sentence_start t s /\ sre_match p t s = Some e.
Proof.
  revert pos. induction fuel as [|f IH]; intros pos Hinv s e; cbn [scan].
  - by intros ?%elem_of_nil.
  - destruct (length t <? pos); [by intros ?%elem_of_nil|].
    destruct (sre_match p t pos) as [e0|] eqn:E.
    + intros [[= -> ->]|Hin]%elem_of_cons; [by eauto|].
      pose proof (match_bounds _ _ E) as (? & ? & Hdot).
      destruct (IH e0 (fun _ _ => or_intror Hdot) s e Hin) as (? & ? & ?).
      repeat split; [lia|done|done].
    + intros Hin.
      destruct (IH (S pos) (start_after_failure pos E) s e Hin) as (? & ? & ?).
      repeat split; [lia|done|done].
Qed.

(** The fuel of [finditer] is enough: more of it changes nothing. *)
Lemma scan_fuel (f1 f2 pos : nat) :
  S (length t) - pos <= f1 -> S (length t) - pos <= f2 ->
  scan f1 p t pos = scan f2 p t pos.
Proof.
  revert f2 pos. induction f1 as [|f1 IH]; intros [|f2] pos H1 H2; cbn [scan]; try done.
  - destruct (Nat.ltb_spec (length t) pos); [done|lia].
  - destruct (Nat.ltb_spec (length t) pos); [done|lia].
  - destruct (Nat.ltb_spec (length t) pos); [done|].
    destruct (sre_match p t pos) as [e|] eqn:E.
    + apply match_bounds in E as (? & ? & _). f_equal. apply IH; lia.
    + apply IH; lia.
Qed.

Lemma finditer_sound (s e : nat) :
  (s, e) ∈ finditer p t -> sentence_start t s /\ sre_match p t s = Some e.
Proof.
  intros H. apply scan_sound in H as (_ & ? & ?); [done|]. intros _ _. by left.
Qed.
End Scan.

(** ** Slices and strip *)

Lemma length_slice (t : text) (s e : nat) :
  s <= e -> e <= length t -> length (slice t s e) = e - s.
Proof. intros. unfold slice. rewrite length_take, length_drop. lia. Qed.

Lemma lookup_slice (t : text) (s e j : nat) :
  j < e - s -> slice t s e !! j = t !! (s + j).
Proof. intros. unfold slice. by rewrite lookup_take_lt, lookup_drop. Qed.

Lemma drop_slice (t : text) (s e j : nat) :
  s <= j -> j <= e -> drop (j - s) (slice t s e) = slice t j e.
Proof.
  intros. unfold slice.
  replace (e - s) with ((j - s) + (e - j)) by lia.
  rewrite <- take_drop_commute, drop_drop. by replace (s + (j - s)) with j by lia.
Qed.

Lemma lstrip_drop (u : text) :
  exists a, lstrip u = drop a u /\ a <= length u /\
    (forall j, j < a -> exists d, u !! j = Some d /\ isspace d = true) /\
    (forall d, u !! a = Some d -> isspace d = false).
Proof.
  induction u as [|c u (a & Ha & Hlen & Hsp & Hns)]; simpl.
  - exists 0. repeat split; [lia|intros; lia|done].
  - destruct (isspace c) eqn:E.
    + exists (S a). simpl. repeat split; [done|lia| |done].
      intros [|j] Hj; simpl; [eauto|]. apply Hsp. lia.
    + exists 0. simpl. repeat split; [lia|intros; lia|]. by intros d [= <-].
Qed.

Lemma rstrip_id (u : text) (d : ascii) :
  last u = Some d -> isspace d = false -> rstrip u = u.
Proof.
  intros Hl Hd. unfold rstrip. destruct (rev u) as [|c r] eqn:E.
  - apply (f_equal (@rev ascii)) in E. rewrite rev_involutive in E. by subst.
  - assert (c = d) as ->.
    { rewrite <- (rev_involutive u), E in Hl. simpl in Hl.
      rewrite last_snoc in Hl. by injection Hl. }
    simpl. rewrite Hd, <- E. apply rev_involutive.
Qed.

(** Stripping a slice that ends in a period moves its start over the
    leading whitespace and nothing else. *)
Lemma strip_slice (t : text) (s e : nat) :
  s < e -> e <= length t -> t !! (e - 1) = Some period ->
  exists s', s <= s' /\ s' < e /\ strip (slice t s e) = slice t s' e /\
    (forall j, s <= j < s' -> exists d, t !! j = Some d /\ isspace d = true).
Proof.
  intros Hse He Hdot. unfold strip.
  destruct (lstrip_drop (slice t s e)) as (a & Ha & Hlen & Hsp & _).
  rewrite length_slice in Hlen by lia.
  assert (a < e - s) as Hlt.
  { destruct (decide (a < e - s)); [done|].
    destruct (Hsp (e - 1 - s)) as (d & Hd & Hspace); [lia|].
    rewrite lookup_slice in Hd by lia. replace (s + (e - 1 - s)) with (e - 1) in Hd by lia.
    rewrite Hdot in Hd. injection Hd as <-. by rewrite period_not_space in Hspace. }
  exists (s + a). split; [lia|]. split; [lia|]. split.
  - assert (drop a (slice t s e) = slice t (s + a) e) as Heq.
    { rewrite <- (drop_slice t s e (s + a)) by lia. f_equal. lia. }
    rewrite Ha, Heq.
    apply (rstrip_id _ period); [|apply period_not_space].
    rewrite last_lookup, length_slice by lia.
    rewrite lookup_slice by lia. rewrite <- Hdot. f_equal. lia.
  - intros j Hj. destruct (Hsp (j - s)) as (d & Hd & Hspace); [lia|].
    rewrite lookup_slice in Hd by lia. replace (s + (j - s)) with j in Hd by lia. eauto.
Qed.

(** ** Word boundaries and keywords in a slice *)

Lemma space_not_word (d : ascii) : isspace d = true -> is_word d = false.
Proof.
  intros H. destruct (is_word d) eqn:E; [|done].
  apply word_not_space in E. congruence.
Qed.

Lemma word_before_start (t : text) (s : nat) :
  sentence_start t s -> word_before t s = false.
Proof.
  intros [->|H]; [done|]. destruct s as [|j]; [done|]. simpl in *.
  rewrite Nat.sub_0_r in H. by rewrite H.
Qed.

Lemma word_before_space (t : text) (j : nat) (d : ascii) :
  t !! j = Some d -> isspace d = true -> word_before t (S j) = false.
Proof. intros H Hd. simpl. rewrite H. simpl. by apply space_not_word. Qed.

Lemma at_boundary_slice (t : text) (s e i : nat) :
  word_before t s = false -> s <= i -> i < e ->
  at_boundary (slice t s e) (i - s) = at_boundary t i.
Proof.
  intros Hs Hsi Hie. unfold at_boundary. f_equal.
  - destruct (decide (i = s)) as [->|Hne].
    + by rewrite Nat.sub_diag, Hs.
    + destruct i as [|i']; [lia|]. replace (S i' - s) with (S (i' - s)) by lia. simpl.
      rewrite lookup_slice by lia. by replace (s + (i' - s)) with i' by lia.
  - rewrite lookup_slice by lia. by replace (s + (i - s)) with i by lia.
Qed.

Lemma keyword_at_length (k u : text) : keyword_at k u = true -> length k <= length u.
Proof.
  revert u. induction k as [|c k IH]; intros [|d u]; simpl; try done; try lia.
  intros (_ & H)%andb_true_iff. apply IH in H. lia.
Qed.

Lemma keyword_at_ci (k u : text) :
  keyword_at k u = true -> map lower (take (length k) u) = map lower k.
Proof.
  revert u. induction k as [|c k IH]; intros [|d u]; simpl; try done.
  intros (Hd & H)%andb_true_iff. apply Ascii.eqb_eq in Hd. rewrite Hd. f_equal. by apply IH.
Qed.

(** A character the keyword matches is a period only if the keyword has
    a period there. *)
Lemma keyword_at_period (k u : text) (j : nat) :
  keyword_at k u = true -> period ∉ k -> j < length k -> u !! j <> Some period.
Proof.
  revert u j. induction k as [|c k IH]; intros [|d u] j; simpl; try done; try lia.
  intros (Hd & H)%andb_true_iff Hk Hj. apply not_elem_of_cons in Hk as (Hc & Hk).
  destruct j as [|j]; simpl.
  - intros [= ->]. apply Ascii.eqb_eq in Hd. symmetry in Hd. by apply lower_period in Hd.
  - apply IH; [done|done|lia].
Qed.

Lemma whole_word_slice (k t : text) (s e i : nat) :
  word_before t s = false -> s <= i -> i + length k < e -> e <= length t ->
  at_boundary t i = true -> keyword_at k (drop i t) = true ->
  at_boundary t (i + length k) = true ->
  whole_word_at k (slice t s e) (i - s) = true.
Proof.
  intros Hs Hsi Hie He Hb1 Hk Hb2. unfold whole_word_at.
  replace (i - s + length k) with (i + length k - s) by lia.
  rewrite !at_boundary_slice, Hb1, Hb2 by (done || lia).
  rewrite !andb_true_r. unfold ci_equal. apply bool_decide_eq_true.
  unfold slice at 1. replace (i + length k - s - (i - s)) with (length k) by lia.
  rewrite drop_slice by lia. unfold slice. rewrite take_take.
  replace (length k `min` (e - i)) with (length k) by lia.
  by apply keyword_at_ci.
Qed.

Lemma whole_word_contained (k x : text) (i : nat) :
  whole_word_at k x i = true -> i <= length x -> contains_whole_word k x = true.
Proof.
  intros H Hi. unfold contains_whole_word. apply existsb_exists. exists i.
  split; [|done]. apply in_seq. lia.
Qed.

(** What the stripped text of a match is: a slice of the text from a
    position that no word character precedes to the period that ends
    the match, with the keyword in it as a whole word. *)
Lemma stripped_match (k t : text) (s e : nat) :
  sentence_start t s -> sre_match (sentence_pattern k) t s = Some e ->
  exists s' i,
    s' <= i /\ i + length k < e /\ e <= length t /\
    strip (slice t s e) = slice t s' e /\
    word_before t s' = false /\
    at_boundary t i = true /\ keyword_at k (drop i t) = true /\
    at_boundary t (i + length k) = true /\
    t !! (e - 1) = Some period /\
    (forall j, s' <= j < i \/ i + length k <= j < e - 1 ->
               exists d, t !! j = Some d /\ d <> period).
Proof.
  intros Hstart Hm.
  pose proof (match_bounds _ _ _ _ Hm) as (Hse & He & Hdot).
  apply sre_match_sentence_Some in Hm as (i & Hsi & Hc & Hrun).
  apply candidate_Some in Hc as (Hb1 & Hk & Hb2 & Hend).
  apply sentence_end_Some in Hend as (Hie & _ & _ & Htail).
  destruct (strip_slice t s e Hse He Hdot) as (s' & Hss' & Hs'e & Hstrip & Hsp).
  assert (word_before t s' = false) as Hwb.
  { destruct (decide (s' = s)) as [->|Hne]; [by apply word_before_start|].
    destruct s' as [|j]; [done|]. destruct (Hsp j) as (d & Hd & Hspace); [lia|].
    by apply (word_before_space t j d). }
  assert (s' <= i) as Hs'i.
  { destruct (decide (s' <= i)); [done|]. exfalso.
    destruct (Hsp i) as (d & Hd & Hspace); [lia|].
    assert (word_before t i = false) as Hwi.
    { destruct (decide (i = s)) as [->|Hne]; [by apply word_before_start|].
      destruct i as [|j]; [done|]. destruct (Hsp j) as (d' & Hd' & Hspace'); [lia|].
      by apply (word_before_space t j d'). }
    unfold at_boundary in Hb1. rewrite Hwi, Hd in Hb1. simpl in Hb1.
    apply space_not_word in Hspace. congruence. }
  exists s', i. repeat split; try done.
  intros j [Hj|Hj]; [apply Hrun; lia|apply Htail; lia].
Qed.

(** ** Loops *)

Lemma for_each_inv {A S : Type} (I : S -> Prop) (body : S -> A -> result S) (l : list A) :
  (forall s x s', x ∈ l -> I s -> body s x = Ok s' -> I s') ->
  forall s s', I s -> for_each body s l = Ok s' -> I s'.
Proof.
  induction l as [|x l IH]; intros Hstep s s' Hs; simpl.
  - by intros [= <-].
  - destruct (body s x) as [s1|] eqn:E; [|done]. apply IH.
    + intros s0 y s0' Hy. apply Hstep. by right.
    + apply (Hstep s x s1); [by left|done|done].
Qed.

(** A property that each step of the loop establishes for its own
    element, and that no step destroys, holds of every element at the
    end. *)
Lemma for_each_all {A S : Type} (J : S -> A -> Prop) (body : S -> A -> result S)
    (l : list A) :
  (forall s x s', x ∈ l -> body s x = Ok s' -> J s' x) ->
  (forall s y s' x, y ∈ l -> body s y = Ok s' -> J s x -> J s' x) ->
  forall s s', for_each body s l = Ok s' -> forall x, x ∈ l -> J s' x.
Proof.
  induction l as [|y l IH]; intros Hown Hkeep s s'; simpl.
  - intros _ x Hx. by apply elem_of_nil in Hx.
  - destruct (body s y) as [s1|] eqn:E; [|done]. intros Hrest x Hx.
    apply elem_of_cons in Hx as [->|Hx].
    + pose proof (Hown s y s1 (list_elem_of_here _ _) E) as Hy.
      revert Hrest. apply (for_each_inv (fun s => J s y)); [|done].
      intros s0 z s0' Hz Hs0 Hb. apply (Hkeep s0 z s0'); [by right|done|done].
    + apply (IH (fun s x s' Hx => Hown s x s' (list_elem_of_further _ _ _ Hx))
                (fun s y s' x Hy => Hkeep s y s' x (list_elem_of_further _ _ _ Hy))
                s1 s' Hrest x Hx).
Qed.

(** ** The loop over the matches of one keyword *)

Lemma scan_match_Ok (c : string) (R R' : gmap string (list text)) (m : text) :
  scan_match c R m = Ok R' ->
  (R' = R /\ (length_ok (strip m) = false \/
              exists old, R !! c = Some old /\ strip m ∈ old)) \/
  (exists old, R !! c = Some old /\ length_ok (strip m) = true /\ (strip m ∉ old) /\
               R' = <[c := old ++ [strip m]]> R).
Proof.
  unfold scan_match. destruct (length_ok (strip m)) eqn:Hlen.
  - destruct (R !! c) as [old|] eqn:E; [|done]. case_bool_decide as Hin.
    + intros [= <-]. left. split; [done|]. right. by exists old.
    + intros [= <-]. right. by exists old.
  - intros [= <-]. left. split; [done|]. by left.
Qed.

(** The matches of a keyword add to the list of its category, at its
    end, the stripped matches that pass the length filter and are not
    in the list yet, and change no other list. *)
Lemma scan_matches_Some (c : string) (ms : list text) :
  forall (R R' : gmap string (list text)) (old : list text),
    for_each (scan_match c) R ms = Ok R' -> R !! c = Some old ->
    exists added,
      R' = <[c := old ++ added]> R /\
      length added <= length ms /\
      (forall x, x ∈ added ->
                 (x ∈ map strip ms) /\ length_ok x = true /\ (x ∉ old)) /\
      NoDup added /\
      (forall m, m ∈ ms -> length_ok (strip m) = true -> strip m ∈ old ++ added).
Proof.
  induction ms as [|m ms IH]; intros R R' old; simpl.
  - intros [= <-] Hold. exists []. rewrite app_nil_r, insert_id by done.
    split_and!; [done|done| |apply NoDup_nil_2|]; by intros ? ?%elem_of_nil.
  - destruct (scan_match c R m) as [R1|] eqn:E; [|done]. intros Hrest Hold.
    apply scan_match_Ok in E as [(-> & Hskip)|(old' & Hold' & Hlen & Hnew & ->)].
    + destruct (IH R R' old Hrest Hold) as (added & -> & Hn & Hsrc & Hnd & Hall).
      exists added. split_and!; [done|lia| |done|].
      * intros x Hx. destruct (Hsrc x Hx) as (? & ? & ?).
        split_and!; [by apply list_elem_of_further|done|done].
      * intros m' [->|Hm']%elem_of_cons Hok; [|by apply Hall].
        destruct Hskip as [Hno|(old' & Hold' & Hin)]; [congruence|].
        rewrite Hold in Hold'. injection Hold' as <-. apply elem_of_app. by left.
    + rewrite Hold in Hold'. injection Hold' as <-.
      destruct (IH _ R' (old ++ [strip m]) Hrest (lookup_insert_eq _ _ _))
        as (added & -> & Hn & Hsrc & Hnd & Hall).
      exists (strip m :: added). rewrite insert_insert_eq, <- app_assoc. simpl.
      split_and!; [done|lia| | |].
      * intros x [->|Hx]%elem_of_cons.
        -- split_and!; [by left|done|done].
        -- destruct (Hsrc x Hx) as (? & ? & Hnot). split_and!; [by right|done|].
           intros Hin. apply Hnot, elem_of_app. by left.
      * apply NoDup_cons. split; [|done]. intros Hin. apply Hsrc in Hin as (_ & _ & Hin).
        apply Hin, elem_of_app. right. by left.
      * intros m' [->|Hm']%elem_of_cons Hok.
        -- apply elem_of_app. right. by left.
        -- specialize (Hall m' Hm' Hok). by rewrite <- app_assoc in Hall.
Qed.

(** Without a list for the category the loop ends normally only when no
    match passes the length filter. *)
Lemma scan_matches_None (c : string) (ms : list text) :
  forall (R R' : gmap string (list text)),
    for_each (scan_match c) R ms = Ok R' -> R !! c = None ->
    R' = R /\ forall m, m ∈ ms -> length_ok (strip m) = false.
Proof.
  induction ms as [|m ms IH]; intros R R'; simpl.
  - intros [= <-] _. split; [done|]. by intros ? ?%elem_of_nil.
  - destruct (scan_match c R m) as [R1|] eqn:E; [|done]. intros Hrest Hnone.
    apply scan_match_Ok in E as [(-> & Hskip)|(old & Hold & _)]; [|congruence].
    destruct (IH R R' Hrest Hnone) as (-> & Hall). split; [done|].
    intros m' [->|Hm']%elem_of_cons; [|by apply Hall].
    destruct Hskip as [?|(old & Hold & _)]; [done|congruence].
Qed.

(** ** The loops over keywords, categories and the catalog *)

Lemma grows_refl (R : gmap string (list text)) : grows R R.
Proof. intros c spans H. exists []. by rewrite app_nil_r. Qed.

Lemma grows_trans (R1 R2 R3 : gmap string (list text)) :
  grows R1 R2 -> grows R2 R3 -> grows R1 R3.
Proof.
  intros H12 H23 c spans H. destruct (H12 c spans H) as (m1 & H2).
  destruct (H23 c _ H2) as (m2 & H3). exists (m1 ++ m2). by rewrite app_assoc.
Qed.

Lemma covered_grows (t : text) (R R' : gmap string (list text)) (c k : string) :
  grows R R' -> covered t R c k -> covered t R' c k.
Proof.
  intros Hg Hc x Hx. destruct (Hc x Hx) as (spans & Hs & Hin).
  destruct (Hg c spans Hs) as (more & Hs'). exists (spans ++ more).
  split; [done|]. apply elem_of_app. by left.
Qed.

(** One keyword: what its step does to the lists. *)
Lemma scan_keyword_Ok (t : text) (c k : string) (R R' : gmap string (list text)) :
  scan_keyword t c R k = Ok R' ->
  (R !! c = None /\ R' = R /\ forall x, ~ candidate_span t k x) \/
  (exists old added,
     R !! c = Some old /\ R' = <[c := old ++ added]> R /\ length added <= 3 /\
     (forall x, x ∈ added -> candidate_span t k x /\ (x ∉ old)) /\
     NoDup added /\
     (forall x, candidate_span t k x -> x ∈ old ++ added)).
Proof.
  unfold scan_keyword. set (ms := take 3 (findall (sentence_pattern (s2t k)) t)).
  intros H. destruct (R !! c) as [old|] eqn:E.
  - right. destruct (scan_matches_Some c ms R R' old H E) as (added & -> & Hn & Hsrc & Hnd & Hall).
    exists old, added. split_and!; [done|done| | |done|].
    + subst ms. rewrite length_take in Hn. lia.
    + intros x Hx. destruct (Hsrc x Hx) as (Hin & Hok & Hnot). split; [|done].
      apply list_elem_of_fmap in Hin as (m & -> & Hm). by exists m.
    + intros x (m & Hm & -> & Hok). by apply Hall.
  - left. destruct (scan_matches_None c ms R R' H E) as (-> & Hall).
    split_and!; [done|done|]. intros x (m & Hm & -> & Hok).
    specialize (Hall m Hm). congruence.
Qed.

Lemma scan_keyword_grows (t : text) (c k : string) (R R' : gmap string (list text)) :
  scan_keyword t c R k = Ok R' -> grows R R'.
Proof.
  intros [(_ & -> & _)|(old & added & Hold & -> & _)]%scan_keyword_Ok; [apply grows_refl|].
  intros c' spans H. destruct (decide (c = c')) as [<-|Hne].
  - rewrite Hold in H. injection H as <-. exists added. apply lookup_insert_eq.
  - exists []. by rewrite app_nil_r, lookup_insert_ne.
Qed.

Lemma scan_keyword_covered (t : text) (c k : string) (R R' : gmap string (list text)) :
  scan_keyword t c R k = Ok R' -> covered t R' c k.
Proof.
  intros [(_ & -> & Hno)|(old & added & Hold & -> & _ & _ & _ & Hall)]%scan_keyword_Ok.
  - intros x Hx. by destruct (Hno x).
  - intros x Hx. exists (old ++ added). split; [apply lookup_insert_eq|by apply Hall].
Qed.

Lemma scan_keyword_sourced (catalog : list (string * list string)) (t : text)
    (c k : string) (R R' : gmap string (list text)) :
  keyword_of catalog c k -> sourced catalog t R ->
  scan_keyword t c R k = Ok R' -> sourced catalog t R'.
Proof.
  intros Hk HR [(_ & -> & _)|(old & added & Hold & -> & _ & Hsrc & _)]%scan_keyword_Ok;
    [done|].
  intros c' spans x H Hx. destruct (decide (c = c')) as [<-|Hne].
  - rewrite lookup_insert_eq in H. injection H as <-.
    apply elem_of_app in Hx as [Hx|Hx]; [by apply (HR c old)|].
    exists k. split; [done|]. by apply Hsrc.
  - rewrite lookup_insert_ne in H by done. by apply (HR c' spans).
Qed.

Lemma scan_keyword_NoDup (t : text) (c k : string) (R R' : gmap string (list text)) :
  all_NoDup R -> scan_keyword t c R k = Ok R' -> all_NoDup R'.
Proof.
  intros HR [(_ & -> & _)|(old & added & Hold & -> & _ & Hsrc & Hnd & _)]%scan_keyword_Ok;
    [done|].
  intros c' spans H. destruct (decide (c = c')) as [<-|Hne].
  - rewrite lookup_insert_eq in H. injection H as <-. apply NoDup_app.
    split_and!; [by apply (HR c)| |done].
    intros x Hx Hx'. by apply (Hsrc x Hx').
  - rewrite lookup_insert_ne in H by done. by apply (HR c').
Qed.

Lemma scan_category_grows (t : text) (entry : string * list string)
    (R R' : gmap string (list text)) :
  scan_category t R entry = Ok R' -> grows R R'.
Proof.
  unfold scan_category. apply (for_each_inv (grows R)); [|apply grows_refl].
  intros R1 k R2 _ H1 H2. apply (grows_trans _ R1); [done|]. by apply scan_keyword_grows in H2.
Qed.

Section Extraction.
Variables (catalog : list (string * list string)) (t : text).
Variable R : gmap string (list text).
Hypothesis Hrun : extract_with catalog t = Ok R.

Lemma extract_sourced : sourced catalog t R.
Proof.
  revert Hrun. unfold extract_with.
  apply (for_each_inv (sourced catalog t)).
  - intros R1 [c keywords] R2 Hentry HR1. unfold scan_category. simpl.
    apply (for_each_inv (sourced catalog t)); [|done].
    intros R3 k R4 Hk HR3. apply scan_keyword_sourced; [|done]. by exists keywords.
  - intros c spans x H Hx. unfold initial_results in H.
    apply lookup_insert_Some in H as [(_ & <-)|(_ & H)]; [by apply elem_of_nil in Hx|].
    apply lookup_insert_Some in H as [(_ & <-)|(_ & H)]; [by apply elem_of_nil in Hx|].
    apply lookup_insert_Some in H as [(_ & <-)|(_ & H)]; [by apply elem_of_nil in Hx|].
    by rewrite lookup_empty in H.
Qed.

Lemma extract_NoDup : all_NoDup R.
Proof.
  revert Hrun. unfold extract_with. apply (for_each_inv all_NoDup).
  - intros R1 [c keywords] R2 _ HR1. unfold scan_category. simpl.
    apply (for_each_inv all_NoDup); [|done].
    intros R3 k R4 _ HR3. by apply scan_keyword_NoDup.
  - intros c spans H. unfold initial_results in H.
    apply lookup_insert_Some in H as [(_ & <-)|(_ & H)]; [apply NoDup_nil_2|].
    apply lookup_insert_Some in H as [(_ & <-)|(_ & H)]; [apply NoDup_nil_2|].
    apply lookup_insert_Some in H as [(_ & <-)|(_ & H)]; [apply NoDup_nil_2|].
    by rewrite lookup_empty in H.
Qed.

Lemma extract_covered (c k : string) : keyword_of catalog c k -> covered t R c k.
Proof.
  intros (keywords & Hentry & Hk).
  pose proof (for_each_all
    (fun R entry => forall k, k ∈ snd entry -> covered t R (fst entry) k)
    (scan_category t) catalog) as H.
  refine (H _ _ initial_results R Hrun (c, keywords) Hentry k Hk); clear H.
  - intros R1 [c1 kws] R2 _. unfold scan_category. simpl.
    apply (for_each_all (fun R k => covered t R c1 k)).
    + intros R3 k1 R4 _. apply scan_keyword_covered.
    + intros R3 k1 R4 k2 _ Hstep. apply covered_grows. by apply scan_keyword_grows in Hstep.
  - intros R1 entry R2 [c1 kws] _ Hstep Hc k1 Hk1.
    apply (covered_grows t R1); [by apply scan_category_grows in Hstep|by apply Hc].
Qed.
End Extraction.

(** ** Strip is idempotent *)

Lemma lstrip_id (u : text) :
  (forall d, head u = Some d -> isspace d = false) -> lstrip u = u.
Proof. destruct u as [|c u]; simpl; [done|]. intros H. by rewrite (H c). Qed.

Lemma lstrip_head (u : text) (d : ascii) :
  head (lstrip u) = Some d -> isspace d = false.
Proof.
  induction u as [|c u IH]; simpl; [done|].
  destruct (isspace c) eqn:E; [done|]. simpl. by intros [= <-].
Qed.

Lemma lstrip_snoc (w : text) (d : ascii) :
  isspace d = false -> lstrip (w ++ [d]) = lstrip w ++ [d].
Proof.
  intros Hd. induction w as [|c w IH]; simpl; [by rewrite Hd|].
  by destruct (isspace c).
Qed.

Lemma rstrip_cons (d : ascii) (v : text) :
  isspace d = false -> rstrip (d :: v) = d :: rstrip v.
Proof.
  intros Hd. unfold rstrip. simpl. rewrite lstrip_snoc by done.
  by rewrite rev_app_distr.
Qed.

Lemma rstrip_idem (v : text) : rstrip (rstrip v) = rstrip v.
Proof.
  unfold rstrip. rewrite rev_involutive. f_equal.
  apply lstrip_id. apply lstrip_head.
Qed.

Lemma strip_idem (u : text) : strip (strip u) = strip u.
Proof.
  unfold strip. destruct (lstrip u) as [|d v] eqn:E; [done|].
  assert (isspace d = false) as Hd by (apply (lstrip_head u); by rewrite E).
  rewrite rstrip_cons by done. simpl. rewrite Hd.
  rewrite rstrip_cons by done. by rewrite rstrip_idem.
Qed.

(** ** The spans of the extractor *)

(** A stripped match of keyword [k] holds [k] as a whole word. *)
Lemma findall_contains_keyword (k t m : text) :
  m ∈ findall (sentence_pattern k) t -> contains_whole_word k (strip m) = true.
Proof.
  unfold findall. intros ([s e] & -> & Hin)%list_elem_of_fmap. simpl.
  apply finditer_sound in Hin as (Hstart & Hm).
  destruct (stripped_match k t s e Hstart Hm)
    as (s' & i & Hsi & Hie & He & -> & Hwb & Hb1 & Hk & Hb2 & _).
  apply (whole_word_contained _ _ (i - s')).
  - by apply whole_word_slice.
  - rewrite length_slice by lia. lia.
Qed.

(** A stripped match of a keyword without a period is a run of
    characters other than the period and then one period. *)
Lemma findall_one_period (k t m : text) :
  period ∉ k -> m ∈ findall (sentence_pattern k) t ->
  exists body, strip m = body ++ [period] /\ period ∉ body.
Proof.
  unfold findall. intros Hk ([s e] & -> & Hin)%list_elem_of_fmap. simpl.
  apply finditer_sound in Hin as (Hstart & Hm).
  destruct (stripped_match k t s e Hstart Hm)
    as (s' & i & Hsi & Hie & He & -> & _ & _ & Hkw & _ & Hdot & Hrun).
  exists (slice t s' (e - 1)). split.
  - unfold slice. replace (e - s') with (S (e - 1 - s')) by lia.
    apply take_S_r. rewrite lookup_drop. by replace (s' + (e - 1 - s')) with (e - 1) by lia.
  - intros (j & Hj)%list_elem_of_lookup.
    pose proof (lookup_lt_Some _ _ _ Hj) as Hlt. rewrite length_slice in Hlt by lia.
    rewrite lookup_slice in Hj by lia.
    destruct (decide (s' + j < i \/ i + length k <= s' + j)) as [Hout|Hin].
    + destruct (Hrun (s' + j)) as (d & Hd & Hne); [lia|]. congruence.
    + apply (keyword_at_period k (drop i t) (s' + j - i) Hkw Hk); [lia|].
      rewrite lookup_drop. by replace (i + (s' + j - i)) with (s' + j) by lia.
Qed.

Lemma take_subset {A : Type} (n : nat) (l : list A) (x : A) : x ∈ take n l -> x ∈ l.
Proof. intros (j & Hj)%list_elem_of_lookup. apply lookup_take_Some in Hj as [Hj _].
       by apply list_elem_of_lookup_2 in Hj. Qed.

Lemma period_free_keyword (catalog : list (string * list string)) (c k : string) :
  period_free catalog = true -> keyword_of catalog c k -> period ∉ s2t k.
Proof.
  intros Hfree (keywords & Hentry & Hk). unfold period_free in Hfree.
  rewrite forallb_forall in Hfree. apply list_elem_of_In in Hentry.
  specialize (Hfree _ Hentry). simpl in Hfree. rewrite forallb_forall in Hfree.
  apply list_elem_of_In in Hk. specialize (Hfree _ Hk). apply negb_true_iff in Hfree.
  intros Hin. apply list_elem_of_In in Hin.
  assert (existsb (Ascii.eqb period) (s2t k) = true) as Hex; [|congruence].
  apply existsb_exists. exists period. split; [done|apply Ascii.eqb_refl].
Qed.

(** C1. Every span in the list of a category is the stripped text of a
    match of one of the keywords of that category, and holds that
    keyword as a whole word, case ignored: the keyword is there between
    two word boundaries. *)
Theorem span_contains_keyword (catalog : list (string * list string)) (t : text)
    (R : gmap string (list text)) (c : string) (spans : list text) (x : text) :
  extract_with catalog t = Ok R -> R !! c = Some spans -> x ∈ spans ->
  exists k m, keyword_of catalog c k /\
              m ∈ findall (sentence_pattern (s2t k)) t /\ x = strip m /\
              contains_whole_word (s2t k) x = true.
Proof.
  intros Hrun Hc Hx.
  destruct (extract_sourced catalog t R Hrun c spans x Hc Hx) as (k & Hk & m & Hm & -> & _).
  apply take_subset in Hm. exists k, m. split_and!; [done|done|done|].
  by apply (findall_contains_keyword _ t).
Qed.

Lemma span_contains_keyword_witness :
  exists k m, keyword_of ESG_KEYWORDS "Environmental" k /\
    m ∈ findall (sentence_pattern (s2t k)) (collapse_whitespace (id sample_text)) /\
    sample_span = strip m /\ contains_whole_word (s2t k) sample_span = true.
Proof.
  apply (span_contains_keyword ESG_KEYWORDS (collapse_whitespace (id sample_text))
           sample_results "Environmental" sample_spans sample_span).
  - vm_compute. reflexivity.
  - vm_compute. reflexivity.
  - apply list_elem_of_here.
Defined.

(** C4. Every span in a list is longer than 50 and shorter than 500
    characters, and stripping it again changes nothing: the length is
    that of the trimmed text. *)
Theorem span_length_bounds (catalog : list (string * list string)) (t : text)
    (R : gmap string (list text)) (c : string) (spans : list text) (x : text) :
  extract_with catalog t = Ok R -> R !! c = Some spans -> x ∈ spans ->
  strip x = x /\ 50 < length (strip x) /\ length (strip x) < 500.
Proof.
  intros Hrun Hc Hx.
  destruct (extract_sourced catalog t R Hrun c spans x Hc Hx) as (k & _ & m & _ & -> & Hok).
  rewrite strip_idem. split; [done|].
  unfold length_ok in Hok. apply andb_true_iff in Hok as (H1 & H2).
  apply Nat.ltb_lt in H1, H2. done.
Qed.

Lemma span_length_bounds_witness :
  strip sample_span = sample_span /\
  50 < length (strip sample_span) /\ length (strip sample_span) < 500.
Proof.
  apply (span_length_bounds ESG_KEYWORDS (collapse_whitespace (id sample_text))
           sample_results "Environmental" sample_spans sample_span).
  - vm_compute. reflexivity.
  - vm_compute. reflexivity.
  - apply list_elem_of_here.
Defined.

(** With a catalog in which no keyword has a period, every span in a
    list is a run of characters other than the period followed by one
    period. *)
Lemma period_free_spans (catalog : list (string * list string)) (t : text)
    (R : gmap string (list text)) (c : string) (spans : list text) (x : text) :
  period_free catalog = true ->
  extract_with catalog t = Ok R -> R !! c = Some spans -> x ∈ spans ->
  exists body, x = body ++ [period] /\ (period ∉ body).
Proof.
  intros Hfree Hrun Hc Hx.
  destruct (extract_sourced catalog t R Hrun c spans x Hc Hx) as (k & Hk & m & Hm & -> & _).
  apply take_subset in Hm. apply (findall_one_period (s2t k) t); [|done].
  by apply (period_free_keyword catalog c).
Qed.

(** C10. Every span in a list that [extract_esg_sections] returns ends
    in a period and has no other period: it is a run of characters
    other than the period followed by one period. *)
Theorem span_single_final_period (get_text : text -> text) (html_content : text)
    (R : gmap string (list text)) (c : string) (spans : list text) (x : text) :
  extract_esg_sections get_text html_content = Ok R -> R !! c = Some spans -> x ∈ spans ->
  exists body, x = body ++ [period] /\ (period ∉ body).
Proof.
  unfold extract_esg_sections. by apply period_free_spans.
Qed.

Lemma span_single_final_period_witness :
  exists body, sample_span = body ++ [period] /\ (period ∉ body).
Proof.
  apply (span_single_final_period id sample_text sample_results "Environmental"
           sample_spans sample_span).
  - vm_compute. reflexivity.
  - vm_compute. reflexivity.
  - apply list_elem_of_here.
Defined.

(** C5. No list of a category holds a string twice, and the list of a
    category holds every span that one of its keywords offers: a text
    offered by two keywords of a category is in its list, once, and a
    text offered by keywords of two categories is in both lists. *)
Theorem category_lists_distinct (catalog : list (string * list string)) (t : text)
    (R : gmap string (list text)) :
  extract_with catalog t = Ok R ->
  (forall c spans, R !! c = Some spans -> NoDup spans) /\
  (forall c k x, keyword_of catalog c k -> candidate_span t k x ->
                 exists spans, R !! c = Some spans /\ x ∈ spans).
Proof.
  intros Hrun. split.
  - by apply (extract_NoDup catalog t).
  - intros c k x Hk Hx. by apply (extract_covered catalog t R Hrun c k).
Qed.

Lemma category_lists_distinct_witness :
  (forall c spans, sample_results !! c = Some spans -> NoDup spans) /\
  (forall c k x, keyword_of ESG_KEYWORDS c k ->
                 candidate_span (collapse_whitespace (id sample_text)) k x ->
                 exists spans, sample_results !! c = Some spans /\ x ∈ spans).
Proof.
  apply (category_lists_distinct ESG_KEYWORDS (collapse_whitespace (id sample_text))
           sample_results).
  vm_compute. reflexivity.
Defined.

(** A keyword that occurs in the text, case ignored, puts a period
    there only where it has one itself. *)
Lemma occurrence_period (k t : text) (i j : nat) :
  ci_equal (slice t i (i + length k)) k = true -> (period ∉ k) ->
  i <= j < i + length k -> t !! j <> Some period.
Proof.
  unfold ci_equal. intros Hci%bool_decide_eq_true Hk Hj Hdot.
  assert (slice t i (i + length k) !! (j - i) = Some period) as Hs.
  { rewrite lookup_slice by lia. by replace (i + (j - i)) with j by lia. }
  apply (f_equal (fun l => l !! (j - i))) in Hci.
  rewrite !list_lookup_fmap, Hs in Hci. simpl in Hci.
  destruct (k !! (j - i)) as [c|] eqn:Hc; [|done]. simpl in Hci.
  injection Hci as Hlow. symmetry in Hlow. apply lower_period in Hlow as ->.
  by apply list_elem_of_lookup_2 in Hc.
Qed.

(** C7. Every match that the scan returns ends in a period. So when the
    keyword occurs at a position and the text has no period after this
    occurrence, no match reaches beyond the occurrence, and with a
    keyword that has no period itself every match ends before the
    occurrence starts: the occurrence is in no span. *)
Theorem no_period_no_span (k t : text) (i s e : nat) :
  whole_word_at k t i = true -> period_free_from t (i + length k) = true ->
  (s, e) ∈ finditer (sentence_pattern k) t ->
  t !! (e - 1) = Some period /\ e <= i + length k /\ ((period ∉ k) -> e <= i).
Proof.
  intros Hocc Hfree Hin. apply finditer_sound in Hin as (_ & Hm).
  apply match_bounds in Hm as (Hse & He & Hdot).
  assert (e <= i + length k) as Hle.
  { destruct (decide (e <= i + length k)) as [|Hgt]; [done|]. exfalso.
    unfold period_free_from in Hfree. rewrite forallb_forall in Hfree.
    specialize (Hfree period). rewrite Ascii.eqb_refl in Hfree.
    assert (In period (drop (i + length k) t)) as Hp; [|by specialize (Hfree Hp)].
    apply list_elem_of_In, list_elem_of_lookup. exists (e - 1 - (i + length k)).
    rewrite lookup_drop. by replace (i + length k + (e - 1 - (i + length k))) with (e - 1) by lia. }
  split_and!; [done|done|]. intros Hk.
  destruct (decide (e <= i)) as [|Hgt]; [done|]. exfalso.
  unfold whole_word_at in Hocc. apply andb_true_iff in Hocc as (Hocc & _).
  apply andb_true_iff in Hocc as (Hci & _).
  apply (occurrence_period k t i (e - 1) Hci Hk); [lia|done].
Qed.

Lemma no_period_no_span_witness :
  sample_text !! (71 - 1) = Some period /\
  71 <= 141 + length (s2t "climate change") /\
  ((period ∉ s2t "climate change") -> 71 <= 141).
Proof.
  apply (no_period_no_span (s2t "climate change") sample_text 141 0 71).
  - vm_compute. reflexivity.
  - vm_compute. reflexivity.
  - vm_compute. apply list_elem_of_here.
Defined.

(** A text without a period gives no match at all. *)
Lemma no_period_no_match (k t : text) :
  period_free_from t 0 = true -> findall (sentence_pattern k) t = [].
Proof.
  intros Hfree. unfold findall.
  destruct (finditer (sentence_pattern k) t) as [|[s e] l] eqn:E; [done|].
  assert ((s, e) ∈ finditer (sentence_pattern k) t) as Hin by (rewrite E; by left).
  apply finditer_sound in Hin as (_ & Hm).
  apply match_bounds in Hm as (Hse & He & Hdot).
  unfold period_free_from in Hfree. rewrite forallb_forall in Hfree.
  specialize (Hfree period). rewrite Ascii.eqb_refl in Hfree.
  assert (In period (drop 0 t)) as Hp; [|by specialize (Hfree Hp)].
  apply list_elem_of_In. by apply list_elem_of_lookup_2 in Hdot.
Qed.

(** On a text without a period the extractor returns three empty
    lists. *)
Lemma no_period_no_disclosure (catalog : list (string * list string)) (t : text) :
  period_free_from t 0 = true -> extract_with catalog t = Ok initial_results.
Proof.
  intros Hfree. unfold extract_with. generalize initial_results as R.
  induction catalog as [|[c keywords] catalog IH]; intros R; simpl; [done|].
  assert (scan_category t R (c, keywords) = Ok R) as ->; [|apply IH].
  unfold scan_category. simpl. induction keywords as [|k keywords IHk]; simpl; [done|].
  unfold scan_keyword at 1. by rewrite no_period_no_match.
Qed.

(** The fuel of [finditer] is enough. *)
Lemma finditer_fuel (k t : text) (fuel : nat) :
  S (length t) <= fuel -> scan fuel (sentence_pattern k) t 0 = finditer (sentence_pattern k) t.
Proof. intros H. unfold finditer. apply scan_fuel; lia. Qed.

(** The keyword is matched as a whole word only, and the length filter
    drops short sentences. *)
Example board_not_in_boardwalk :
  findall (sentence_pattern (s2t "board")) (s2t "The boardwalk is long. The Board met.")
    = [s2t " The Board met."] /\
  contains_whole_word (s2t "board") (s2t "The boardwalk is long.") = false /\
  contains_whole_word (s2t "board") (s2t "The Board met.") = true.
Proof. split_and!; reflexivity. Qed.

Example short_sentences_dropped :
  findall (sentence_pattern (s2t "climate change")) short_text
    = [s2t "Our climate change policy is strong."; s2t " Another climate change note."] /\
  extract_with ESG_KEYWORDS short_text = Ok initial_results.
Proof. split; vm_compute; reflexivity. Qed.

(** C8. The step of one keyword appends to the list of its category at
    most three spans, each the stripped text of one of the first three
    matches of the keyword, of an accepted length and new to the list.
    The cut to three matches comes first: when none of the first three
    matches is accepted, nothing is added, whatever the later matches
    are. *)
Theorem keyword_adds_at_most_three (t : text) (c k : string)
    (R R' : gmap string (list text)) (old : list text) :
  scan_keyword t c R k = Ok R' -> R !! c = Some old ->
  exists added,
    R' = <[c := old ++ added]> R /\ length added <= 3 /\
    (forall x, x ∈ added ->
       exists j m, j < 3 /\ findall (sentence_pattern (s2t k)) t !! j = Some m /\
                   x = strip m /\ length_ok x = true /\ (x ∉ old)) /\
    ((forall m, m ∈ take 3 (findall (sentence_pattern (s2t k)) t) ->
                length_ok (strip m) = false \/ strip m ∈ old) -> added = []).
Proof.
  intros [(Hnone & _)|(old' & added & Hold & -> & Hn & Hsrc & _)]%scan_keyword_Ok Hc;
    [congruence|].
  rewrite Hc in Hold. injection Hold as <-. exists added. split_and!; [done|done| |].
  - intros x Hx. destruct (Hsrc x Hx) as ((m & Hm & -> & Hok) & Hnot).
    apply list_elem_of_lookup in Hm as (j & Hj). apply lookup_take_Some in Hj as (Hj & Hlt).
    by exists j, m.
  - intros Hnope. destruct added as [|x added]; [done|]. exfalso.
    destruct (Hsrc x (list_elem_of_here _ _)) as ((m & Hm & -> & Hok) & Hnot).
    destruct (Hnope m Hm) as [?|?]; [congruence|done].
Qed.

Lemma keyword_adds_at_most_three_witness :
  exists added,
    <["Environmental" := take 3 four_sentences]> initial_results
      = <["Environmental" := [] ++ added]> initial_results /\ length added <= 3 /\
    (forall x, x ∈ added ->
       exists j m, j < 3 /\ findall (sentence_pattern (s2t "net zero")) four_text !! j = Some m /\
                   x = strip m /\ length_ok x = true /\ (x ∉ [])) /\
    ((forall m, m ∈ take 3 (findall (sentence_pattern (s2t "net zero")) four_text) ->
                length_ok (strip m) = false \/ strip m ∈ []) -> added = []).
Proof.
  apply (keyword_adds_at_most_three four_text "Environmental" "net zero" initial_results).
  - vm_compute. reflexivity.
  - vm_compute. reflexivity.
Defined.

(** The fourth sentence of [four_text] is a match of the keyword and of
    an accepted length, and is not returned. *)
Example fourth_match_not_returned :
  findall (sentence_pattern (s2t "net zero")) four_text !! 3
    = Some (" "%char :: s2t "Suppliers are asked to commit to net zero by the same date.") /\
  length_ok (s2t "Suppliers are asked to commit to net zero by the same date.") = true /\
  scan_keyword four_text "Environmental" initial_results "net zero"
    = Ok (<["Environmental" := take 3 four_sentences]> initial_results).
Proof. split_and!; vm_compute; reflexivity. Qed.

(** ** The metrics aggregator *)

Lemma analyze_lookup (esg_data : gmap string (list text)) (c : string) :
  c ∈ CATEGORIES ->
  analyze_esg_disclosure esg_data !! c = Some (metrics_of (default [] (esg_data !! c))).
Proof.
  unfold CATEGORIES, analyze_esg_disclosure. simpl.
  intros [->|[->|[->|Hc%elem_of_nil]%elem_of_cons]%elem_of_cons]%elem_of_cons; [| | |done].
  - rewrite !lookup_insert_ne by done. apply lookup_insert_eq.
  - rewrite lookup_insert_ne by done. apply lookup_insert_eq.
  - apply lookup_insert_eq.
Qed.

(** *** The true division *)

Section Binary64.
Local Open Scope Z_scope.

Lemma round_half_even_nearest (A B j : Z) :
  0 < B -> Z.abs (round_half_even A B * B - A) <= Z.abs (j * B - A).
Proof.
  intros HB. unfold round_half_even.
  pose proof (Z.div_mod A B ltac:(lia)) as Hdm.
  pose proof (Z.mod_pos_bound A B HB) as Hr.
  set (q := A / B) in *. set (r := A mod B) in *.
  assert (j <= q \/ q + 1 <= j) as [Hj|Hj] by lia.
  - assert (0 <= (q - j) * B) by nia.
    destruct (2 * r <? B) eqn:E1; [|destruct (B <? 2 * r) eqn:E2; [|destruct (Z.even q)]];
      rewrite ?Z.ltb_lt, ?Z.ltb_ge in *; nia.
  - assert (0 <= (j - q - 1) * B) by nia.
    destruct (2 * r <? B) eqn:E1; [|destruct (B <? 2 * r) eqn:E2; [|destruct (Z.even q)]];
      rewrite ?Z.ltb_lt, ?Z.ltb_ge in *; nia.
Qed.

Lemma round_half_even_bounds (A B lo hi : Z) :
  0 < B -> lo * B <= A -> A <= hi * B -> lo <= round_half_even A B <= hi.
Proof.
  intros HB Hlo Hhi. unfold round_half_even.
  pose proof (Z.div_mod A B ltac:(lia)) as Hdm.
  pose proof (Z.mod_pos_bound A B HB) as Hr.
  set (q := A / B) in *. set (r := A mod B) in *.
  assert (lo <= q) by nia. assert (q <= hi) by nia.
  assert (r = 0 \/ q + 1 <= hi) by nia.
  destruct (2 * r <? B) eqn:E1; [|destruct (B <? 2 * r) eqn:E2; [|destruct (Z.even q)]];
    rewrite ?Z.ltb_lt, ?Z.ltb_ge in *; lia.
Qed.

Lemma scaled_pos (a b e : Z) :
  0 < a -> 0 < b -> 0 < fst (scaled a b e) /\ 0 < snd (scaled a b e).
Proof.
  intros Ha Hb. unfold scaled. destruct (Z.leb_spec 0 e); simpl.
  - pose proof (Z.pow_pos_nonneg 2 e ltac:(lia) ltac:(lia)). nia.
  - pose proof (Z.pow_pos_nonneg 2 (- e) ltac:(lia) ltac:(lia)). nia.
Qed.

(** One step down in the exponent doubles the ratio. *)
Lemma scaled_step (a b e : Z) :
  fst (scaled a b (e - 1)) * snd (scaled a b e)
  = 2 * fst (scaled a b e) * snd (scaled a b (e - 1)).
Proof.
  unfold scaled. destruct (Z.leb_spec 0 e), (Z.leb_spec 0 (e - 1)); cbn [fst snd]; try lia.
  - assert (2 ^ e = 2 * 2 ^ (e - 1)) as ->; [|ring].
    rewrite <- Z.pow_succ_r by lia. f_equal. lia.
  - assert (e = 0) as -> by lia. change (2 ^ 0) with 1. change (2 ^ (- (0 - 1))) with 2. ring.
  - assert (2 ^ (- (e - 1)) = 2 * 2 ^ (- e)) as ->; [|ring].
    rewrite <- Z.pow_succ_r by lia. f_equal. lia.
Qed.

Lemma scaled_log2 (a b : Z) :
  0 < a -> 0 < b ->
  let e0 := Z.log2 a - Z.log2 b - 52 in
  2 ^ 51 * snd (scaled a b e0) < fst (scaled a b e0) /\
  fst (scaled a b e0) < 2 ^ 53 * snd (scaled a b e0).
Proof.
  intros Ha Hb e0. destruct (Z.log2_spec a Ha) as (Ha1 & Ha2).
  destruct (Z.log2_spec b Hb) as (Hb1 & Hb2).
  pose proof (Z.log2_nonneg a) as Hla. pose proof (Z.log2_nonneg b) as Hlb.
  set (la := Z.log2 a) in *. set (lb := Z.log2 b) in *.
  rewrite Z.pow_succ_r in Ha2, Hb2 by done.
  unfold scaled. destruct (Z.leb_spec 0 e0) as [He|He]; simpl.
  - assert (2 ^ la = 2 ^ 52 * 2 ^ lb * 2 ^ e0) as Hpow.
    { rewrite <- !Z.pow_add_r by lia. f_equal. lia. }
    pose proof (Z.pow_pos_nonneg 2 e0 ltac:(lia) He) as Hp.
    pose proof (Z.pow_pos_nonneg 2 lb ltac:(lia) Hlb) as Hq.
    change (2 ^ 51) with 2251799813685248. change (2 ^ 53) with 9007199254740992.
    change (2 ^ 52) with 4503599627370496 in Hpow. nia.
  - assert (2 ^ la * 2 ^ (- e0) = 2 ^ 52 * 2 ^ lb) as Hpow.
    { rewrite <- !Z.pow_add_r by lia. f_equal. lia. }
    pose proof (Z.pow_pos_nonneg 2 (- e0) ltac:(lia) ltac:(lia)) as Hp.
    pose proof (Z.pow_pos_nonneg 2 lb ltac:(lia) Hlb) as Hq.
    change (2 ^ 51) with 2251799813685248. change (2 ^ 53) with 9007199254740992.
    change (2 ^ 52) with 4503599627370496 in Hpow. nia.
Qed.

Lemma exponent_of_normal (a b : Z) :
  0 < a -> 0 < b ->
  let e1 := exponent_of a b in
  2 ^ 52 * snd (scaled a b e1) <= fst (scaled a b e1) /\
  fst (scaled a b e1) < 2 ^ 53 * snd (scaled a b e1).
Proof.
  intros Ha Hb. unfold exponent_of. set (e0 := Z.log2 a - Z.log2 b - 52).
  destruct (scaled_log2 a b Ha Hb) as (Hlo & Hhi). fold e0 in Hlo, Hhi.
  destruct (scaled_pos a b e0 Ha Hb) as (HA0 & HB0).
  destruct (scaled_pos a b (e0 - 1) Ha Hb) as (HA & HB).
  pose proof (scaled_step a b e0) as Hstep.
  change (2 ^ 51) with 2251799813685248 in *. change (2 ^ 53) with 9007199254740992 in *.
  change (2 ^ 52) with 4503599627370496 in *.
  pose proof (Z.div_mod (fst (scaled a b e0)) (snd (scaled a b e0)) ltac:(lia)) as Hdm.
  pose proof (Z.mod_pos_bound (fst (scaled a b e0)) (snd (scaled a b e0)) HB0) as Hr.
  destruct (Z.ltb_spec (fst (scaled a b e0) / snd (scaled a b e0)) 4503599627370496)
    as [Hlt|Hge]; cbv zeta; nia.
Qed.

Lemma pow2_pos (e : Z) : (0 < 2 ^ e)%Q.
Proof. by apply Qpower_0_lt. Qed.

Lemma pow2_nonzero (e : Z) : ~ (2 ^ e == 0)%Q.
Proof. intros H. pose proof (pow2_pos e) as Hp. rewrite H in Hp. by apply Qlt_irrefl in Hp. Qed.

Lemma pow2_add (x y : Z) : (2 ^ (x + y) == 2 ^ x * 2 ^ y)%Q.
Proof. by apply Qpower_plus. Qed.

Lemma pow2_inject (n : Z) : 0 <= n -> (inject_Z (2 ^ n) == 2 ^ n)%Q.
Proof. intros Hn. by rewrite Zpower_Qpower. Qed.

(** The ratio that [scaled] stands for. *)
Lemma scaled_ratio (a b e : Z) :
  0 < b ->
  (inject_Z a / inject_Z b
   == inject_Z (fst (scaled a b e)) / inject_Z (snd (scaled a b e)) * 2 ^ e)%Q.
Proof.
  intros Hb. assert (~ inject_Z b == 0)%Q as Hb0.
  { intros H. apply (inject_Z_injective b 0) in H. lia. }
  pose proof (pow2_pos e) as Hp. unfold scaled.
  destruct (Z.leb_spec 0 e) as [He|He]; cbn [fst snd].
  - rewrite inject_Z_mult, pow2_inject by done. field. split; first [apply pow2_nonzero|exact Hb0].
  - rewrite inject_Z_mult, pow2_inject by lia.
    replace e with (- - e) at 2 by lia. rewrite (Qpower_opp 2 (- e)).
    field. split; first [apply pow2_nonzero|exact Hb0].
Qed.

(** The distance of a point of the grid of step [2 ^ e] to [a / b]. *)
Lemma grid_distance (a b e j : Z) :
  0 < b ->
  let A := fst (scaled a b e) in
  let B := snd (scaled a b e) in
  0 < B ->
  (Qabs (inject_Z j * 2 ^ e - inject_Z a / inject_Z b)
   == inject_Z (Z.abs (j * B - A)) * (2 ^ e / inject_Z B))%Q.
Proof.
  intros Hb A B HB. rewrite (scaled_ratio a b e Hb). fold A B.
  assert (0 < inject_Z B)%Q as HB' by (change 0%Q with (inject_Z 0); rewrite <- Zlt_Qlt; lia).
  pose proof (pow2_pos e) as Hp.
  assert (0 < 2 ^ e / inject_Z B)%Q as Hc.
  { apply Qlt_shift_div_l; [done|]. lra. }
  assert (inject_Z j * 2 ^ e - inject_Z A / inject_Z B * 2 ^ e
          == inject_Z (j * B - A) * (2 ^ e / inject_Z B))%Q as ->.
  { unfold Z.sub. rewrite inject_Z_plus, inject_Z_mult, inject_Z_opp. field. lra. }
  rewrite Qabs_Qmult. rewrite (Qabs_pos (2 ^ e / inject_Z B)) by lra.
  reflexivity.
Qed.

(** The rounded mantissa at the exponent of [exponent_of] is the
    nearest point to [a / b] among all numbers with a mantissa of 53
    bits. *)
Lemma rounded_nearest (a b : Z) :
  0 < a -> 0 < b ->
  let e1 := exponent_of a b in
  let m0 := round_half_even (fst (scaled a b e1)) (snd (scaled a b e1)) in
  2 ^ 52 <= m0 <= 2 ^ 53 /\
  forall m' e', Z.abs m' < 2 ^ 53 ->
    (Qabs (inject_Z m0 * 2 ^ e1 - inject_Z a / inject_Z b)
     <= Qabs (inject_Z m' * 2 ^ e' - inject_Z a / inject_Z b))%Q.
Proof.
  intros Ha Hb e1 m0.
  destruct (exponent_of_normal a b Ha Hb) as (Hlo & Hhi). fold e1 in Hlo, Hhi.
  destruct (scaled_pos a b e1 Ha Hb) as (HA & HB).
  set (A := fst (scaled a b e1)) in *. set (B := snd (scaled a b e1)) in *.
  split; [apply round_half_even_bounds; lia|].
  assert (0 < inject_Z B)%Q as HB' by (change 0%Q with (inject_Z 0); rewrite <- Zlt_Qlt; lia).
  pose proof (pow2_pos e1) as Hg.
  assert (0 < 2 ^ e1 / inject_Z B)%Q as Hc by (apply Qlt_shift_div_l; [done|lra]).
  assert (forall j, (Qabs (inject_Z m0 * 2 ^ e1 - inject_Z a / inject_Z b)
                     <= Qabs (inject_Z j * 2 ^ e1 - inject_Z a / inject_Z b))%Q) as Hgrid.
  { intros j. rewrite !(grid_distance a b e1 _ Hb HB). fold A B.
    apply Qmult_le_compat_r; [|lra]. rewrite <- Zle_Qle.
    by apply round_half_even_nearest. }
  intros m' e' Hm'. destruct (Z.le_gt_cases e1 e') as [Hle|Hgt].
  - assert (inject_Z m' * 2 ^ e' == inject_Z (m' * 2 ^ (e' - e1)) * 2 ^ e1)%Q as ->;
      [|apply Hgrid].
    rewrite inject_Z_mult, pow2_inject by lia.
    replace e' with ((e' - e1) + e1) at 1 by lia. rewrite pow2_add. ring.
  - apply (Qle_trans _ _ _ (Hgrid (2 ^ 52))).
    assert (inject_Z (2 ^ 52) * 2 ^ e1 <= inject_Z a / inject_Z b)%Q as Hmean.
    { rewrite (scaled_ratio a b e1 Hb). fold A B. apply Qmult_le_compat_r; [|lra].
      apply Qle_shift_div_l; [done|]. rewrite <- inject_Z_mult, <- Zle_Qle. lia. }
    assert (inject_Z m' * 2 ^ e' <= inject_Z (2 ^ 52) * 2 ^ e1)%Q as Hx.
    { pose proof (pow2_pos e') as Hp.
      assert (2 ^ e' * 2 <= 2 ^ e1)%Q as Hstep.
      { change 2%Q with (2 ^ 1)%Q at 2. rewrite <- pow2_add.
        apply Qpower_le_compat_l; [lia|lra]. }
      assert (inject_Z m' <= inject_Z (2 ^ 53))%Q as Hm by (rewrite <- Zle_Qle; lia).
      apply (Qmult_le_compat_r _ _ (2 ^ e')) in Hm; [|lra].
      change (inject_Z (2 ^ 53)) with (inject_Z (2 ^ 52) * 2)%Q in Hm.
      change (inject_Z (2 ^ 52)) with 4503599627370496%Q in *. lra. }
    rewrite (Qabs_neg (inject_Z (2 ^ 52) * 2 ^ e1 - _)) by lra.
    pose proof (Qle_Qabs (- (inject_Z m' * 2 ^ e' - inject_Z a / inject_Z b))) as Habs.
    rewrite Qabs_opp in Habs. lra.
Qed.

Lemma true_divide_Some (a b m e : Z) :
  0 < a -> 0 < b -> true_divide a b = Some (m, e) ->
  2 ^ 52 <= m < 2 ^ 53 /\ -1074 <= e <= 971 /\
  (float_value m e
   == inject_Z (round_half_even (fst (scaled a b (exponent_of a b)))
                                (snd (scaled a b (exponent_of a b))))
      * 2 ^ exponent_of a b)%Q.
Proof.
  intros Ha Hb. unfold true_divide.
  destruct (Z.ltb_spec a 0); [lia|]. destruct (Z.leb_spec b 0); [lia|]. cbn [orb].
  destruct (Z.eqb_spec a 0); [lia|]. cbv zeta. fold (exponent_of a b).
  destruct (rounded_nearest a b Ha Hb) as (Hm0 & _). cbv zeta in Hm0.
  set (e1 := exponent_of a b) in *.
  set (m0 := round_half_even (fst (scaled a b e1)) (snd (scaled a b e1))) in *.
  destruct (Z.eqb_spec m0 (2 ^ 53)) as [Heq|Hne]; cbn [snd].
  - destruct (Z.ltb_spec (e1 + 1) (-1074)); [done|].
    destruct (Z.ltb_spec 971 (e1 + 1)); [done|]. cbn [orb]. intros [= <- <-].
    split; [done|]. split; [lia|]. unfold float_value. rewrite Heq, pow2_add.
    change (inject_Z (2 ^ 53)) with (inject_Z (2 ^ 52) * 2 ^ 1)%Q. ring.
  - destruct (Z.ltb_spec e1 (-1074)); [done|].
    destruct (Z.ltb_spec 971 e1); [done|]. cbn [orb]. intros [= <- <-].
    split; [lia|]. split; [lia|]. reflexivity.
Qed.

Lemma true_divide_in_range (a b : Z) :
  0 < a < 2 ^ 126 -> 0 < b < 2 ^ 63 -> exists m e, true_divide a b = Some (m, e).
Proof.
  intros (Ha & Ha') (Hb & Hb'). unfold true_divide.
  destruct (Z.ltb_spec a 0); [lia|]. destruct (Z.leb_spec b 0); [lia|]. cbn [orb].
  destruct (Z.eqb_spec a 0); [lia|]. cbv zeta. fold (exponent_of a b).
  assert (-114 <= Z.log2 a - Z.log2 b - 52 <= 73) as He0.
  { apply Z.log2_lt_pow2 in Ha', Hb'; [|done..].
    pose proof (Z.log2_nonneg a). pose proof (Z.log2_nonneg b). lia. }
  assert (-115 <= exponent_of a b <= 73) as He1.
  { unfold exponent_of. destruct (_ <? _); lia. }
  set (e1 := exponent_of a b) in *.
  destruct (_ =? _); cbn [snd].
  - destruct (Z.ltb_spec (e1 + 1) (-1074)); [lia|].
    destruct (Z.ltb_spec 971 (e1 + 1)); [lia|]. by eexists _, _.
  - destruct (Z.ltb_spec e1 (-1074)); [lia|].
    destruct (Z.ltb_spec 971 e1); [lia|]. by eexists _, _.
Qed.

(** What [true_divide] returns is the float nearest to the quotient. *)
Lemma true_divide_nearest (a b m e : Z) (x : Q) :
  0 <= a -> 0 < b -> true_divide a b = Some (m, e) -> binary64 x ->
  binary64 (float_value m e) /\
  (Qabs (float_value m e - inject_Z a / inject_Z b)
   <= Qabs (x - inject_Z a / inject_Z b))%Q.
Proof.
  intros Ha Hb Hdiv (m' & e' & Hm' & He' & Hx).
  destruct (Z.eq_dec a 0) as [->|Hne].
  - unfold true_divide in Hdiv. destruct (Z.leb_spec b 0); [lia|]. simpl in Hdiv.
    injection Hdiv as <- <-. split.
    + exists 0, 0. split; [done|]. split; [lia|]. reflexivity.
    + assert (float_value 0 0 - inject_Z 0 / inject_Z b == 0)%Q as ->.
      { unfold float_value, Qdiv. change (inject_Z 0) with 0%Q. ring. }
      apply Qabs_nonneg.
  - destruct (true_divide_Some a b m e ltac:(lia) Hb Hdiv) as (Hm & He & Hv). split.
    + exists m, e. split; [lia|]. split; [done|]. reflexivity.
    + rewrite Hv, Hx. unfold float_value.
      by apply (rounded_nearest a b ltac:(lia) Hb).
Qed.

Lemma true_divide_total (a b : Z) :
  0 <= a < 2 ^ 126 -> 0 < b < 2 ^ 63 -> exists m e, true_divide a b = Some (m, e).
Proof.
  intros (Ha & Ha') Hb. destruct (Z.eq_dec a 0) as [->|Hne].
  - exists 0, 0. unfold true_divide. destruct (Z.leb_spec b 0); [lia|]. done.
  - apply true_divide_in_range; lia.
Qed.
End Binary64.

Lemma sum_lengths_list_sum (items : list text) :
  sum_lengths items = list_sum (map length items).
Proof. induction items as [|x items IH]; simpl; [done|]. by rewrite IH. Qed.

Lemma ssize_ok_bounds (items : list text) :
  ssize_ok items = true ->
  (Z.of_nat (length items) < 2 ^ 63)%Z /\ (Z.of_nat (sum_lengths items) < 2 ^ 126)%Z.
Proof.
  unfold ssize_ok. intros (Hn%Z.ltb_lt & Hall)%andb_true_iff. split; [done|].
  assert (Z.of_nat (sum_lengths items)
          <= Z.of_nat (length items) * (2 ^ 63 - 1))%Z as Hsum.
  { clear Hn. induction items as [|x items IH]; [simpl; lia|].
    simpl in Hall. apply andb_true_iff in Hall as (Hx%Z.ltb_lt & Hall).
    specialize (IH Hall). cbn [sum_lengths foldr length]. fold (sum_lengths items).
    rewrite Nat2Z.inj_add, Nat2Z.inj_succ. lia. }
  change (2 ^ 63)%Z with 9223372036854775808%Z in *.
  change (2 ^ 126)%Z with 85070591730234615865843651857942052864%Z. nia.
Qed.

(** C6. The metrics of a category are a function of its span list
    alone, and their count is the length of the list. For the empty
    list the average is the integer 0 and the sample is the sentinel.
    For a list that starts with [first], with lengths that Python
    objects can have, the sample is the first 200 characters of [first]
    and then three periods, and the average is a binary64 float, the
    one nearest to the arithmetic mean of the lengths: the mean itself
    when the mean is such a float, and a rounding of it otherwise. *)
Theorem metrics_of_span_list (esg_data : gmap string (list text)) (c : string) :
  c ∈ CATEGORIES ->
  let items := default [] (esg_data !! c) in
  ssize_ok items = true ->
  exists m, analyze_esg_disclosure esg_data !! c = Some m /\
    (forall esg', default [] (esg' !! c) = items ->
                  analyze_esg_disclosure esg' !! c = Some m) /\
    disclosure_count m = length items /\
    (items = [] ->
       avg_length m = Int 0 /\ number_value (avg_length m) = Some 0%Q /\
       sample m = s2t "No disclosure found") /\
    (forall first rest, items = first :: rest ->
       sample m = take 200 first ++ s2t "..." /\
       exists v, number_value (avg_length m) = Some v /\ binary64 v /\
         (forall x, binary64 x ->
            (Qabs (v - mean_length items) <= Qabs (x - mean_length items))%Q) /\
         (binary64 (mean_length items) -> (v == mean_length items)%Q)).
Proof.
  intros Hc items Hsize. exists (metrics_of items).
  split; [by apply analyze_lookup|]. split.
  { intros esg' Hitems. by rewrite analyze_lookup, Hitems. }
  split; [done|]. split; [by intros ->|].
  intros first rest Hitems. split; [by rewrite Hitems|].
  destruct (ssize_ok_bounds items Hsize) as (Hn & Hs).
  assert (0 < Z.of_nat (length items))%Z as Hpos by (rewrite Hitems; simpl; lia).
  destruct (true_divide_total (Z.of_nat (sum_lengths items)) (Z.of_nat (length items)))
    as (m & e & Hdiv); [lia|lia|].
  assert (avg_length (metrics_of items)
          = TrueDiv (Z.of_nat (sum_lengths items)) (Z.of_nat (length items))) as Havg
    by (by rewrite Hitems).
  assert (forall x, binary64 x ->
    (Qabs (float_value m e - mean_length items) <= Qabs (x - mean_length items))%Q)
    as Hnear.
  { intros x Hx. unfold mean_length. rewrite <- sum_lengths_list_sum.
    by apply (true_divide_nearest _ _ m e x (Nat2Z.is_nonneg _) Hpos Hdiv). }
  exists (float_value m e). split_and!.
  - rewrite Havg. cbn [number_value]. by rewrite Hdiv.
  - eapply (true_divide_nearest _ _ m e 0%Q (Nat2Z.is_nonneg _) Hpos Hdiv).
    exists 0%Z, 0%Z. split; [done|]. split; [lia|]. reflexivity.
  - exact Hnear.
  - intros Hmean. specialize (Hnear _ Hmean).
    assert (mean_length items - mean_length items == 0)%Q as Hzero by ring.
    rewrite Hzero in Hnear. change (Qabs 0) with 0%Q in Hnear.
    apply Qabs_Qle_condition in Hnear. lra.
Qed.

Lemma metrics_of_span_list_witness :
  let items := default [] (sample_results !! "Environmental") in
  exists m, analyze_esg_disclosure sample_results !! "Environmental" = Some m /\
    (forall esg', default [] (esg' !! "Environmental") = items ->
                  analyze_esg_disclosure esg' !! "Environmental" = Some m) /\
    disclosure_count m = length items /\
    (items = [] ->
       avg_length m = Int 0 /\ number_value (avg_length m) = Some 0%Q /\
       sample m = s2t "No disclosure found") /\
    (forall first rest, items = first :: rest ->
       sample m = take 200 first ++ s2t "..." /\
       exists v, number_value (avg_length m) = Some v /\ binary64 v /\
         (forall x, binary64 x ->
            (Qabs (v - mean_length items) <= Qabs (x - mean_length items))%Q) /\
         (binary64 (mean_length items) -> (v == mean_length items)%Q)).
Proof.
  apply (metrics_of_span_list sample_results "Environmental").
  - apply list_elem_of_here.
  - vm_compute. reflexivity.
Defined.

(** C6, the claim as stated fails: for three spans of 51, 52 and 52
    characters the mean is 155/3, and the average that the aggregator
    returns is the float 7271436898358613 * 2^-47, which Python prints
    as 51.666666666666664. It is not the mean. *)
Lemma average_is_not_the_mean :
  avg_length <$> (analyze_esg_disclosure uneven_data !! "Environmental")
    = Some (TrueDiv 155 3) /\
  number_value (TrueDiv 155 3) = Some (float_value 7271436898358613 (-47)) /\
  (mean_length uneven_spans == 155 # 3)%Q /\
  ~ (float_value 7271436898358613 (-47) == mean_length uneven_spans)%Q.
Proof.
  split_and!.
  - reflexivity.
  - vm_compute. reflexivity.
  - reflexivity.
  - vm_compute. discriminate.
Qed.

(** The aggregator on the sample run and on no data at all. *)
Example metrics_of_sample :
  metrics_of sample_spans =
  {| disclosure_count := 2; avg_length := TrueDiv 136 2;
     sample := sample_span ++ s2t "..." |}.
Proof. reflexivity. Qed.

Example metrics_of_nothing :
  analyze_esg_disclosure ∅ !! "Social" =
  Some {| disclosure_count := 0; avg_length := Int 0; sample := s2t "No disclosure found" |}.
Proof. reflexivity. Qed.

(** ** The extractor on the catalog of the script never raises *)





(** ** The filing fetcher *)

(** Metadata without a list of forms lists no filing. *)
Lemma filings_of_metadata_no_forms (cik filing_type : text) (count : Z) :
  filings_of_metadata cik filing_type count (JObject []) = Ok [].
Proof. reflexivity. Qed.

(** C3. The metadata [short_metadata] has a form "10-K" and an empty
    list of accession numbers, [forms_only_metadata] has the form and
    no other list at all, so that the defaults [[]] of lines 67-69 are
    what is indexed. In both [accessions[i]] raises IndexError, which
    leaves [get_company_filings]: no empty list is returned. *)
Theorem mismatched_metadata_raises :
  filings_of_metadata (s2t "0000320193") (s2t "10-K") 5 short_metadata = Raise IndexError /\
  filings_of_metadata (s2t "0000320193") (s2t "10-K") 5 forms_only_metadata
    = Raise IndexError /\
  get_company_filings
    (fun _ => Ok {| status_code := 200; body_json := Some short_metadata; body_text := [] |})
    (s2t "0000320193") (s2t "10-K") 5 empty_world
  = (Raise IndexError,
     {| requests_made := [Submissions (s2t "0000320193")]; artifact := None |}).
Proof. split_and!; reflexivity. Qed.

(** Metadata that raises in the fetcher ends the run of the driver as
    well. *)
Example main_short_metadata :
  main id
    (fun _ => Ok {| status_code := 200; body_json := Some short_metadata; body_text := [] |})
    empty_world
  = (Raise IndexError,
     {| requests_made := [Submissions (s2t "0000320193")]; artifact := None |}).
Proof. reflexivity. Qed.

(** The same call on metadata whose four lists agree. *)
Example good_metadata_filings :
  filings_of_metadata (s2t "0000320193") (s2t "10-K") 5 good_metadata =
  Ok [ {| form := JString (s2t "10-K");
          accession := s2t "000032019323000106";
          date := JString (s2t "2023-11-03");
          document := JString (s2t "aapl-20230930.htm");
          cik_of := s2t "0000320193" |} ].
Proof. reflexivity. Qed.

(** ** The report driver *)

Section DriverFacts.
Variable get_text : text -> text.
Variable net : request -> result response.

Let step := process_company get_text net.

Lemma io_for_each_app {A S : Type} (body : S -> A -> io S) (l1 l2 : list A) (s : S)
    (w : world) :
  io_for_each body s (l1 ++ l2) w =
  match io_for_each body s l1 w with
  | (Ok s1, w1) => io_for_each body s1 l2 w1
  | (Raise e, w1) => (Raise e, w1)
  end.
Proof.
  revert s w. induction l1 as [|x l1 IH]; intros s w; simpl; [done|].
  unfold bind. destruct (body s x w) as [[s1|e] w1]; [apply IH|done].
Qed.

Lemma get_company_filings_world (cik ft : text) (count : Z) (w w' : world)
    (r : result (list filing)) :
  get_company_filings net cik ft count w = (r, w') -> w' = log_request w (Submissions cik).
Proof.
  unfold get_company_filings, bind, requests_get.
  destruct (net (Submissions cik)) as [resp|e]; [|by intros [= _ <-]].
  destruct (negb _); [by intros [= _ <-]|].
  unfold lift. destruct (response_json resp); simpl; by intros [= _ <-].
Qed.

(** The step of a company sends the metadata request first and writes
    no file. *)
Lemma process_company_world (acc : list (string * company_result))
    (entry : string * text) (w w' : world) (r : result (list (string * company_result))) :
  step acc entry w = (r, w') ->
  artifact w' = artifact w /\
  exists more, requests_made w' = requests_made w ++ Submissions (snd entry) :: more.
Proof.
  unfold step, process_company, bind.
  destruct (get_company_filings net (snd entry) (s2t "10-K") 1 w) as [r1 w1] eqn:E1.
  apply get_company_filings_world in E1 as ->.
  destruct r1 as [[|f rest]|e].
  - intros [= _ <-]. split; [done|]. by exists [].
  - unfold get_filing_content, bind, requests_get.
    set (rq := Archive _ _ _).
    assert (forall r0, (r0, log_request (log_request w (Submissions (snd entry))) rq) = (r, w') ->
      artifact w' = artifact w /\
      exists more, requests_made w' = requests_made w ++ Submissions (snd entry) :: more)
      as Hdone.
    { intros r0 [= _ <-]. split; [done|]. exists [rq]. simpl. by rewrite <- app_assoc. }
    destruct (net rq) as [resp|e]; [|apply Hdone].
    destruct (negb _); [apply Hdone|]. unfold ret.
    destruct (body_text resp) as [|ch content]; [apply Hdone|].
    unfold lift. destruct (extract_esg_sections _ _); [|apply Hdone].
    destruct (print_report _ _); apply Hdone.
  - intros [= _ <-]. split; [done|]. by exists [].
Qed.

Lemma io_for_each_world (companies : list (string * text))
    (acc : list (string * company_result)) (w w' : world)
    (r : result (list (string * company_result))) :
  io_for_each step acc companies w = (r, w') ->
  artifact w' = artifact w /\ exists more, requests_made w' = requests_made w ++ more.
Proof.
  revert acc w. induction companies as [|entry l IH]; intros acc w; simpl.
  - intros [= _ <-]. split; [done|]. exists []. by rewrite app_nil_r.
  - unfold bind. destruct (step acc entry w) as [r1 w1] eqn:E.
    apply process_company_world in E as (Ha & more & Hr).
    destruct r1 as [acc1|e].
    + intros (Ha' & more' & Hr')%IH. split; [congruence|].
      eexists. by rewrite Hr', Hr, <- app_assoc.
    + intros [= _ <-]. split; [done|]. by eexists.
Qed.

(** A loop that ends normally has sent the metadata request of every
    company. *)
Lemma io_for_each_requests (companies : list (string * text))
    (acc r : list (string * company_result)) (w w' : world) :
  io_for_each step acc companies w = (Ok r, w') ->
  forall entry, entry ∈ companies -> Submissions (snd entry) ∈ requests_made w'.
Proof.
  revert acc w. induction companies as [|x l IH]; intros acc w; simpl.
  - intros _ entry Hin. by apply elem_of_nil in Hin.
  - unfold bind. destruct (step acc x w) as [[acc1|e] w1] eqn:E; [|done].
    intros Hrest entry [->|Hin]%elem_of_cons; [|by apply (IH acc1 w1)].
    apply process_company_world in E as (_ & more & Hr).
    apply io_for_each_world in Hrest as (_ & more' & ->). rewrite Hr.
    apply elem_of_app. left. apply elem_of_app. right. by left.
Qed.

(** An exception in the step of a company leaves [main_with]: the
    companies after it are not processed, the file is not written. *)
Lemma main_with_raise (before after : list (string * text)) (entry : string * text)
    (acc : list (string * company_result)) (w w1 w2 : world) (ex : exn) :
  io_for_each step [] before w = (Ok acc, w1) ->
  step acc entry w1 = (Raise ex, w2) ->
  main_with get_text net (before ++ entry :: after) w = (Raise ex, w2).
Proof.
  intros Hbefore Hstep. unfold main_with, bind. fold step.
  rewrite io_for_each_app, Hbefore. simpl. unfold bind. by rewrite Hstep.
Qed.

Lemma main_with_Ok (companies : list (string * text))
    (r : list (string * company_result)) (w w' : world) :
  main_with get_text net companies w = (Ok r, w') ->
  artifact w' = Some r /\
  forall entry, entry ∈ companies -> Submissions (snd entry) ∈ requests_made w'.
Proof.
  unfold main_with, bind. fold step.
  destruct (io_for_each step [] companies w) as [[acc|e] w1] eqn:E; [|done].
  unfold write_artifact, ret. intros [= <- <-]. split; [done|]. simpl.
  by apply (io_for_each_requests companies [] acc w).
Qed.

Lemma metadata_status_skips (acc : list (string * company_result)) (company : string)
    (cik : text) (w : world) (resp : response) :
  net (Submissions cik) = Ok resp -> status_code resp <> 200%Z ->
  step acc (company, cik) w = (Ok acc, log_request w (Submissions cik)).
Proof.
  intros Hnet Hstatus. unfold step, process_company, get_company_filings, bind, requests_get.
  simpl. rewrite Hnet. apply Z.eqb_neq in Hstatus. by rewrite Hstatus.
Qed.

Lemma metadata_exception_raises (acc : list (string * company_result)) (company : string)
    (cik : text) (w : world) (ex : exn) :
  net (Submissions cik) = Raise ex ->
  step acc (company, cik) w = (Raise ex, log_request w (Submissions cik)).
Proof.
  intros Hnet. unfold step, process_company, get_company_filings, bind, requests_get.
  simpl. by rewrite Hnet.
Qed.

Lemma document_status_skips (acc : list (string * company_result)) (company : string)
    (cik : text) (w w1 : world) (f : filing) (rest : list filing) (resp : response) :
  get_company_filings net cik (s2t "10-K") 1 w = (Ok (f :: rest), w1) ->
  net (Archive (lstrip_zeros cik) (accession f) (document f)) = Ok resp ->
  status_code resp <> 200%Z ->
  step acc (company, cik) w
  = (Ok acc, log_request w1 (Archive (lstrip_zeros cik) (accession f) (document f))).
Proof.
  intros Hf Hnet Hstatus. unfold step, process_company, bind. cbn [fst snd]. rewrite Hf.
  unfold get_filing_content, bind, requests_get. rewrite Hnet.
  apply Z.eqb_neq in Hstatus. by rewrite Hstatus.
Qed.

Lemma document_exception_raises (acc : list (string * company_result)) (company : string)
    (cik : text) (w w1 : world) (f : filing) (rest : list filing) (ex : exn) :
  get_company_filings net cik (s2t "10-K") 1 w = (Ok (f :: rest), w1) ->
  net (Archive (lstrip_zeros cik) (accession f) (document f)) = Raise ex ->
  step acc (company, cik) w
  = (Raise ex, log_request w1 (Archive (lstrip_zeros cik) (accession f) (document f))).
Proof.
  intros Hf Hnet. unfold step, process_company, bind. cbn [fst snd]. rewrite Hf.
  unfold get_filing_content, bind, requests_get. by rewrite Hnet.
Qed.
End DriverFacts.

(** C2, as the code has it. Take a company of the catalog, with the
    companies before it processed without an exception. A fetch for it
    that returns a status other than 200 makes the driver skip that
    company only: its step ends normally with the results as they
    were, and the loop goes on. A fetch that raises is not caught: the
    exception leaves [main] at that company, with no request sent for a
    later company and the file as it was before the run. A run that
    ends normally has sent the request of every company and has written
    the file. *)
Theorem driver_fetch_outcomes (get_text : text -> text) (net : request -> result response)
    (w w1 : world) (before after : list (string * text)) (company : string) (cik : text)
    (acc : list (string * company_result)) :
  COMPANIES = before ++ (company, cik) :: after ->
  io_for_each (process_company get_text net) [] before w = (Ok acc, w1) ->
  (forall resp, net (Submissions cik) = Ok resp -> status_code resp <> 200%Z ->
     process_company get_text net acc (company, cik) w1
     = (Ok acc, log_request w1 (Submissions cik))) /\
  (forall ex, net (Submissions cik) = Raise ex ->
     main get_text net w = (Raise ex, log_request w1 (Submissions cik)) /\
     artifact (log_request w1 (Submissions cik)) = artifact w) /\
  (forall f rest w2,
     get_company_filings net cik (s2t "10-K") 1 w1 = (Ok (f :: rest), w2) ->
     let rq := Archive (lstrip_zeros cik) (accession f) (document f) in
     (forall resp, net rq = Ok resp -> status_code resp <> 200%Z ->
        process_company get_text net acc (company, cik) w1 = (Ok acc, log_request w2 rq)) /\
     (forall ex, net rq = Raise ex ->
        main get_text net w = (Raise ex, log_request w2 rq) /\
        artifact (log_request w2 rq) = artifact w)) /\
  (forall r w', main get_text net w = (Ok r, w') ->
     artifact w' = Some r /\
     forall entry, entry ∈ COMPANIES -> Submissions (snd entry) ∈ requests_made w').
Proof.
  intros Hsplit Hbefore.
  pose proof (io_for_each_world get_text net before [] w w1 _ Hbefore) as (Hart & _).
  split_and!.
  - intros resp Hnet Hstatus. by apply (metadata_status_skips get_text net acc company cik w1 resp).
  - intros ex Hnet. split; [|done]. unfold main. rewrite Hsplit.
    apply (main_with_raise get_text net before after (company, cik) acc w w1); [done|].
    by apply metadata_exception_raises.
  - intros f rest w2 Hf rq. split.
    + intros resp Hnet Hstatus.
      by apply (document_status_skips get_text net acc company cik w1 w2 f rest resp).
    + intros ex Hnet. split.
      * unfold main. rewrite Hsplit.
        apply (main_with_raise get_text net before after (company, cik) acc w w1); [done|].
        by apply (document_exception_raises get_text net acc company cik w1 w2 f rest).
      * rewrite (get_company_filings_world net _ _ _ _ _ _ Hf). done.
  - intros r w' Hmain. exact (main_with_Ok get_text net COMPANIES r w w' Hmain).
Qed.

(** The theorem at the second company, on a server that answers 404 to
    every request: the company is skipped, and the run ends normally
    with the file written. *)
Lemma driver_fetch_outcomes_witness :
  process_company id not_found_net [] ("Alphabet (Google)", s2t "0001652044")
    (log_request empty_world (Submissions (s2t "0000320193")))
  = (Ok [], log_request (log_request empty_world (Submissions (s2t "0000320193")))
                        (Submissions (s2t "0001652044"))) /\
  (artifact (snd (main id not_found_net empty_world)) = Some [] /\
   forall entry, entry ∈ COMPANIES ->
     Submissions (snd entry) ∈ requests_made (snd (main id not_found_net empty_world))).
Proof.
  pose proof (driver_fetch_outcomes id not_found_net empty_world
                (log_request empty_world (Submissions (s2t "0000320193")))
                [("Apple", s2t "0000320193")] [("Tesla", s2t "0001318605")]
                "Alphabet (Google)" (s2t "0001652044") [] eq_refl eq_refl)
    as (Hstatus & _ & _ & Hok).
  split.
  - apply (Hstatus {| status_code := 404; body_json := None; body_text := [] |}).
    + reflexivity.
    + discriminate.
  - apply (Hok [] (snd (main id not_found_net empty_world))). reflexivity.
Defined.

(** C2, the claim as stated fails: without a connection the fetch for
    the first company raises ConnectionError, and the exception leaves
    [main]. One request has been sent, none for the two later
    companies, and the file has not been written. *)
Lemma transport_exception_ends_run :
  failing_net (Submissions (s2t "0000320193")) = Raise ConnectionError /\
  main id failing_net empty_world
  = (Raise ConnectionError,
     {| requests_made := [Submissions (s2t "0000320193")]; artifact := None |}).
Proof. split; reflexivity. Qed.

(** A run in which the first company is served and the two others get
    status 404: one entry in the results, the file written with it,
    four requests sent. *)
Example main_sample_run :
  main id sample_net empty_world =
  (Ok [("Apple", {| filing_date := JString (s2t "2023-11-03");
                    esg_data := sample_results;
                    metrics := analyze_esg_disclosure sample_results |})],
   {| requests_made :=
        [Submissions (s2t "0000320193");
         Archive (s2t "320193") (s2t "000032019323000106") (JString (s2t "aapl-20230930.htm"));
         Submissions (s2t "0001652044");
         Submissions (s2t "0001318605")];
      artifact :=
        Some [("Apple", {| filing_date := JString (s2t "2023-11-03");
                           esg_data := sample_results;
                           metrics := analyze_esg_disclosure sample_results |})] |}).
Proof. vm_compute. reflexivity. Qed.

(** The same run with the connection lost at the second company: the
    exception leaves [main], the third company is not requested, and
    the file is not written, not even with the entry of the first
    company. *)
Example main_dropping_run :
  main id dropping_net empty_world =
  (Raise Timeout,
   {| requests_made :=
        [Submissions (s2t "0000320193");
         Archive (s2t "320193") (s2t "000032019323000106") (JString (s2t "aapl-20230930.htm"));
         Submissions (s2t "0001652044")];
      artifact := None |}).
Proof. vm_compute. reflexivity. Qed.
(** ** The matches of a keyword are the sentences that hold it *)

Lemma backtrack_complete (f : nat -> option nat) (n c : nat) (e : nat) :
  c <= n -> f c = Some e -> exists e', backtrack f n = Some e'.
Proof.
  intros Hc Hf. induction n as [|n IH]; simpl.
  - replace c with 0 in Hf by lia. rewrite Hf. by eexists.
  - destruct (f (S n)) as [e0|] eqn:E; [by eexists|].
    apply IH. destruct (decide (c = S n)) as [->|]; [congruence|lia].
Qed.

Lemma span_not_exact (c : ascii) (u : text) (m : nat) :
  (forall j, j < m -> u !! j <> Some c) -> u !! m = Some c -> span_not c u = m.
Proof.
  revert u. induction m as [|m IH]; intros [|d u] Hrun Hend; simpl in *; try done.
  - injection Hend as ->. by rewrite Ascii.eqb_refl.
  - destruct (Ascii.eqb d c) eqn:E.
    + apply Ascii.eqb_eq in E as ->. by destruct (Hrun 0); [lia|].
    + f_equal. apply IH; [|done]. intros j Hj. apply (Hrun (S j)). lia.
Qed.

Lemma keyword_at_of_ci (k u : text) :
  map lower (take (length k) u) = map lower k -> keyword_at k u = true.
Proof.
  revert u. induction k as [|c k IH]; intros [|d u]; simpl; try done.
  intros [= Hd Hrest]. rewrite Hd, Ascii.eqb_refl. simpl. by apply IH.
Qed.

Lemma whole_word_at_text (k t : text) (i : nat) :
  whole_word_at k t i = true <->
  at_boundary t i = true /\ keyword_at k (drop i t) = true /\
  at_boundary t (i + length k) = true.
Proof.
  unfold whole_word_at, ci_equal, slice.
  replace (i + length k - i) with (length k) by lia.
  rewrite !andb_true_iff, bool_decide_eq_true. split.
  - intros ((Hci & ?) & ?). split_and!; [done| |done]. by apply keyword_at_of_ci.
  - intros (? & Hk & ?). split_and!; [|done|done]. by apply keyword_at_ci.
Qed.

(** A keyword without a period that is found at [i] has no period
    under it. *)
Lemma keyword_at_no_period (k t : text) (i j : nat) :
  keyword_at k (drop i t) = true -> (period ∉ k) -> i <= j < i + length k ->
  t !! j <> Some period.
Proof.
  intros Hk Hfree Hj. pose proof (keyword_at_period k (drop i t) (j - i) Hk Hfree) as H.
  rewrite lookup_drop in H. replace (i + (j - i)) with j in H by lia. apply H. lia.
Qed.

(** A match of a keyword without a period has one period, its last
    character. *)
Lemma match_one_period (k t : text) (s e : nat) :
  (period ∉ k) -> sre_match (sentence_pattern k) t s = Some e ->
  forall j, s <= j < e - 1 -> t !! j <> Some period.
Proof.
  intros Hfree Hm j Hj.
  apply sre_match_sentence_Some in Hm as (i & Hsi & Hc & Hrun).
  apply candidate_Some in Hc as (_ & Hk & _ & Hend).
  apply sentence_end_Some in Hend as (_ & _ & _ & Htail).
  destruct (decide (j < i)) as [Hlt|Hge].
  - destruct (Hrun j) as (d & Hd & Hne); [lia|]. congruence.
  - destruct (decide (j < i + length k)) as [Hin|Hout].
    + apply (keyword_at_no_period k t i); [done|done|lia].
    + destruct (Htail j) as (d & Hd & Hne); [lia|]. congruence.
Qed.

(** In a sentence that holds the keyword the pattern matches at the
    start of the sentence, up to its period. *)
Lemma sre_match_complete (k t : text) (s e i : nat) :
  (period ∉ k) ->
  (forall j, s <= j < e - 1 -> t !! j <> Some period) -> t !! (e - 1) = Some period ->
  s <= i -> i + length k < e -> whole_word_at k t i = true ->
  sre_match (sentence_pattern k) t s = Some e.
Proof.
  intros Hfree Hrun Hdot Hsi Hie Hw. apply whole_word_at_text in Hw as (Hb1 & Hk & Hb2).
  assert (forall p, s <= p <= e - 1 -> span_not period (drop p t) = e - 1 - p) as Hspan.
  { intros p Hp. apply span_not_exact.
    - intros j Hj. rewrite lookup_drop. apply Hrun. lia.
    - rewrite lookup_drop. by replace (p + (e - 1 - p)) with (e - 1) by lia. }
  assert (candidate k t i = Some e) as Hcand.
  { unfold candidate. rewrite Hb1, Hk, Hb2. simpl. unfold sentence_end.
    rewrite Hspan by lia. replace (i + length k + (e - 1 - (i + length k))) with (e - 1) by lia.
    rewrite Hdot. f_equal. lia. }
  rewrite sre_match_sentence, Hspan by lia.
  destruct (backtrack_complete (fun c => candidate k t (s + c)) (e - 1 - s) (i - s) e)
    as (e' & He'); [lia|by replace (s + (i - s)) with i by lia|].
  rewrite He'. f_equal. apply backtrack_Some in He' as (c & Hc & Hcand').
  apply candidate_Some in Hcand' as (_ & Hk' & _ & Hend).
  apply sentence_end_Some in Hend as (Hlt & Hlen & Hdot' & Htail).
  assert (s + c + length k <= e - 1) as Hfit.
  { destruct (decide (s + c + length k <= e - 1)); [done|]. exfalso.
    apply (keyword_at_no_period k t (s + c) (e - 1) Hk' Hfree); [lia|done]. }
  destruct (decide (e' - 1 < e - 1)) as [Hlow|Hhigh].
  - exfalso. apply (Hrun (e' - 1)); [lia|done].
  - destruct (decide (e - 1 < e' - 1)) as [Hup|]; [|lia]. exfalso.
    destruct (Htail (e - 1)) as (d & Hd & Hne); [lia|]. congruence.
Qed.

Section ScanComplete.
Variables (k t : text).
Hypothesis Hfree : period ∉ k.
Let p := sentence_pattern k.

Lemma scan_complete (s e : nat) :
  sentence_start t s -> sre_match p t s = Some e ->
  forall fuel pos, pos <= s -> S (length t) - pos <= fuel -> (s, e) ∈ scan fuel p t pos.
Proof.
  intros Hstart Hm. pose proof (match_bounds _ _ _ _ Hm) as (Hse & He & _).
  induction fuel as [|f IH]; intros pos Hpos Hfuel; [lia|]. cbn [scan].
  destruct (Nat.ltb_spec (length t) pos) as [|_]; [lia|].
  destruct (decide (pos = s)) as [->|Hne].
  - fold p. rewrite Hm. by left.
  - destruct (sre_match p t pos) as [e0|] eqn:E.
    + right. pose proof (match_bounds _ _ _ _ E) as (Hpe & _ & _).
      apply IH; [|lia]. destruct (decide (e0 <= s)) as [|Hgt]; [done|]. exfalso.
      destruct Hstart as [->|Hdot]; [lia|].
      apply (match_one_period k t pos e0 Hfree E (s - 1)); [lia|done].
    + apply IH; lia.
Qed.
End ScanComplete.

(** X1. For a keyword without a period, the matches that the scan
    returns are the sentences of the text in which the keyword is a
    whole word: from the start of the text or the character after a
    period, up to the next period. *)
Theorem finditer_sentences (k t : text) (s e : nat) :
  (period ∉ k) ->
  ((s, e) ∈ finditer (sentence_pattern k) t <->
   sentence t s e /\ exists i, s <= i /\ i + length k < e /\ whole_word_at k t i = true).
Proof.
  intros Hfree. split.
  - intros Hin. apply finditer_sound in Hin as (Hstart & Hm).
    pose proof (match_bounds _ _ _ _ Hm) as (Hse & He & Hdot).
    pose proof (match_one_period k t s e Hfree Hm) as Hrun.
    split; [done|].
    apply sre_match_sentence_Some in Hm as (i & Hsi & Hc & _).
    apply candidate_Some in Hc as (Hb1 & Hk & Hb2 & Hend).
    apply sentence_end_Some in Hend as (Hie & _).
    exists i. split_and!; [done|done|]. by apply whole_word_at_text.
  - intros ((Hstart & Hse & Hdot & Hrun) & i & Hsi & Hie & Hw).
    apply scan_complete; [done|done| |lia|lia].
    by apply (sre_match_complete k t s e i).
Qed.

Lemma finditer_sentences_witness :
  (0, 71) ∈ finditer (sentence_pattern (s2t "climate change")) sample_text <->
  sentence sample_text 0 71 /\
  exists i, 0 <= i /\ i + length (s2t "climate change") < 71 /\
            whole_word_at (s2t "climate change") sample_text i = true.
Proof.
  apply (finditer_sentences (s2t "climate change") sample_text 0 71).
  apply (bool_decide_unpack _). vm_compute. exact I.
Defined.

(** The scan from a position gives matches in order from that position. *)
Lemma scan_in_order (k t : text) (fuel pos : nat) :
  in_order t pos (scan fuel (sentence_pattern k) t pos).
Proof.
  revert pos. induction fuel as [|f IH]; intros pos; cbn [scan]; [done|].
  destruct (length t <? pos); [done|].
  destruct (sre_match (sentence_pattern k) t pos) as [e|] eqn:E.
  - apply match_bounds in E as (? & ? & _). simpl. split_and!; [lia|done|done|apply IH].
  - specialize (IH (S pos)). destruct (scan f _ t (S pos)) as [|[s e] r]; [done|].
    simpl in *. destruct IH as (? & ? & ? & ?). split_and!; [lia|done|done|done].
Qed.

Lemma in_order_lookup (t : text) (l : list (nat * nat)) (pos i s e : nat) :
  in_order t pos l -> l !! i = Some (s, e) -> pos <= s /\ s < e /\ e <= length t.
Proof.
  revert pos i. induction l as [|[s0 e0] l IH]; intros pos i; simpl; [done|].
  intros (? & ? & ? & Hrest). destruct i as [|i]; simpl.
  - by intros [= -> ->].
  - intros Hi. destruct (IH e0 i Hrest Hi) as (? & ? & ?). lia.
Qed.

(** X2. The matches that the scan returns lie in the text one after the
    other: each starts where the one before ended or later, none is
    empty, none goes beyond the end of the text. *)
Theorem finditer_in_order (k t : text) (i j s1 e1 s2 e2 : nat) :
  i < j ->
  finditer (sentence_pattern k) t !! i = Some (s1, e1) ->
  finditer (sentence_pattern k) t !! j = Some (s2, e2) ->
  s1 < e1 /\ e1 <= s2 /\ s2 < e2 /\ e2 <= length t.
Proof.
  unfold finditer. pose proof (scan_in_order k t (S (length t)) 0) as Hord.
  revert Hord. generalize (scan (S (length t)) (sentence_pattern k) t 0) as l.
  generalize 0 as pos. intros pos l. revert pos i j.
  induction l as [|[s0 e0] l IH]; intros pos i j; simpl; [done|].
  intros (? & ? & ? & Hrest) Hij. destruct i as [|i], j as [|j]; simpl; try lia.
  - intros [= -> ->] Hj. destruct (in_order_lookup t l e1 j s2 e2 Hrest Hj) as (? & ? & ?). lia.
  - apply (IH e0 i j Hrest). lia.
Qed.

Lemma finditer_in_order_witness : 0 < 71 /\ 71 <= 71 /\ 71 < 138 /\ 138 <= length sample_text.
Proof.
  apply (finditer_in_order (s2t "climate change") sample_text 0 1 0 71 71 138).
  - lia.
  - vm_compute. reflexivity.
  - vm_compute. reflexivity.
Defined.

(** ** The collapsing of whitespace (line 104) *)

Lemma sub_spaces_head (t : text) (c : ascii) :
  head (sub_spaces true t) = Some c -> isspace c = false.
Proof.
  induction t as [|d t IH]; simpl; [done|].
  destruct (isspace d) eqn:E; [done|]. simpl. by intros [= <-].
Qed.

Lemma sub_spaces_no_run (in_run : bool) (t : text) (i : nat) (c d : ascii) :
  sub_spaces in_run t !! i = Some c -> sub_spaces in_run t !! S i = Some d ->
  isspace c = true -> isspace d = false.
Proof.
  revert in_run i. induction t as [|a t IH]; intros in_run i; simpl; [done|].
  destruct (isspace a) eqn:E.
  - destruct in_run; [apply IH|]. destruct i as [|i]; simpl; [|apply IH].
    intros _ Hd _. apply (sub_spaces_head t). by rewrite head_lookup.
  - destruct i as [|i]; simpl; [|apply IH]. intros [= <-]. congruence.
Qed.

(** X3. In the text that line 104 produces the only whitespace
    character is the space, and no two whitespace characters are next
    to each other. *)
Theorem collapse_whitespace_single_spaces (t : text) (i : nat) (c : ascii) :
  collapse_whitespace t !! i = Some c -> isspace c = true ->
  c = " "%char /\
  forall d, collapse_whitespace t !! S i = Some d -> isspace d = false.
Proof.
  intros Hc Hsp. split.
  - apply (collapse_whitespace_spaces t); [|done]. by apply list_elem_of_lookup_2 in Hc.
  - intros d Hd. by apply (sub_spaces_no_run false t i c d).
Qed.

Lemma collapse_whitespace_single_spaces_witness :
  " "%char = " "%char /\
  forall d, collapse_whitespace sample_text !! S 3 = Some d -> isspace d = false.
Proof.
  apply (collapse_whitespace_single_spaces sample_text 3 " "%char).
  - vm_compute. reflexivity.
  - reflexivity.
Defined.

Lemma sub_spaces_again (t : text) :
  (forall b, sub_spaces b (sub_spaces true t) = sub_spaces true t) /\
  sub_spaces false (sub_spaces false t) = sub_spaces false t.
Proof.
  induction t as [|c t (IH1 & IH2)]; simpl; [done|].
  destruct (isspace c) eqn:E; simpl.
  - split; [done|]. by rewrite (IH1 true).
  - rewrite E. split; [intros b|]; by rewrite IH2.
Qed.

Lemma sub_spaces_content (b : bool) (t : text) :
  List.filter (fun c => negb (isspace c)) (sub_spaces b t)
  = List.filter (fun c => negb (isspace c)) t.
Proof.
  revert b. induction t as [|c t IH]; intros b; simpl; [done|].
  destruct (isspace c) eqn:E; simpl.
  - destruct b; simpl; apply IH.
  - rewrite E. simpl. by rewrite IH.
Qed.

(** X4. Collapsing whitespace a second time changes nothing, and the
    collapsing keeps the characters that are not whitespace, in their
    order. *)
Theorem collapse_whitespace_idempotent (t : text) :
  collapse_whitespace (collapse_whitespace t) = collapse_whitespace t /\
  List.filter (fun c => negb (isspace c)) (collapse_whitespace t)
  = List.filter (fun c => negb (isspace c)) t.
Proof. split; [apply sub_spaces_again|apply sub_spaces_content]. Qed.

(** ** The extractor as a fold *)

Lemma scan_matches_fold (c : string) (ms : list text) :
  forall (R : gmap string (list text)) (old : list text),
    R !! c = Some old ->
    for_each (scan_match c) R ms
    = Ok (<[c := foldl append_new old (List.filter length_ok (map strip ms))]> R).
Proof.
  induction ms as [|m ms IH]; intros R old Hold; simpl.
  - by rewrite insert_id.
  - unfold scan_match at 1. destruct (length_ok (strip m)) eqn:Hok; simpl.
    + rewrite Hold. unfold append_new at 2. case_bool_decide.
      * by apply IH.
      * rewrite (IH _ (old ++ [strip m])) by apply lookup_insert_eq.
        by rewrite insert_insert_eq.
    + by apply IH.
Qed.

Lemma scan_matches_missing (c : string) (ms : list text) (R : gmap string (list text)) :
  R !! c = None ->
  for_each (scan_match c) R ms
  = if List.filter length_ok (map strip ms) is [] then Ok R else Raise KeyError.
Proof.
  intros Hnone. induction ms as [|m ms IH]; simpl; [done|].
  unfold scan_match at 1. destruct (length_ok (strip m)); simpl; [by rewrite Hnone|done].
Qed.

Lemma scan_keyword_fold (t : text) (c k : string) (R : gmap string (list text))
    (old : list text) :
  R !! c = Some old -> scan_keyword t c R k = Ok (<[c := keyword_spans t old k]> R).
Proof. intros Hold. unfold scan_keyword. by apply scan_matches_fold. Qed.

Lemma scan_keywords_fold (t : text) (c : string) (kws : list string) :
  forall (R : gmap string (list text)) (old : list text),
    R !! c = Some old ->
    for_each (scan_keyword t c) R kws = Ok (<[c := foldl (keyword_spans t) old kws]> R).
Proof.
  induction kws as [|k kws IH]; intros R old Hold; simpl.
  - by rewrite insert_id.
  - rewrite (scan_keyword_fold t c k R old Hold).
    rewrite (IH _ (keyword_spans t old k)) by apply lookup_insert_eq.
    by rewrite insert_insert_eq.
Qed.

Lemma scan_keyword_same_keys (t : text) (c k : string) (R R' : gmap string (list text)) :
  scan_keyword t c R k = Ok R' -> same_keys R R'.
Proof.
  intros [(_ & -> & _)|(old & added & Hold & -> & _)]%scan_keyword_Ok; [done|].
  intros c'. destruct (decide (c = c')) as [<-|Hne].
  - rewrite lookup_insert_eq, Hold. done.
  - by rewrite lookup_insert_ne.
Qed.

Lemma scan_keyword_other (t : text) (c c' k : string) (R R' : gmap string (list text)) :
  c <> c' -> scan_keyword t c R k = Ok R' -> R' !! c' = R !! c'.
Proof.
  intros Hne [(_ & -> & _)|(old & added & Hold & -> & _)]%scan_keyword_Ok; [done|].
  by rewrite lookup_insert_ne.
Qed.

Lemma scan_category_same_keys (t : text) (entry : string * list string)
    (R R' : gmap string (list text)) :
  scan_category t R entry = Ok R' -> same_keys R R'.
Proof.
  unfold scan_category. apply (for_each_inv (same_keys R)); [|done].
  intros R1 k R2 _ H1 H2%scan_keyword_same_keys c. by rewrite (H1 c).
Qed.

Lemma scan_category_other (t : text) (entry : string * list string) (c : string)
    (R R' : gmap string (list text)) :
  fst entry <> c -> scan_category t R entry = Ok R' -> R' !! c = R !! c.
Proof.
  intros Hne. unfold scan_category.
  apply (for_each_inv (fun R' => R' !! c = R !! c)); [|done].
  intros R1 k R2 _ H1 H2. by rewrite (scan_keyword_other t _ c k R1 R2 Hne H2).
Qed.

Lemma scan_categories_other (t : text) (catalog : list (string * list string)) (c : string)
    (R R' : gmap string (list text)) :
  (c ∉ map fst catalog) -> for_each (scan_category t) R catalog = Ok R' -> R' !! c = R !! c.
Proof.
  intros Hc. apply (for_each_inv (fun R' => R' !! c = R !! c)); [|done].
  intros R1 entry R2 Hentry H1 H2. rewrite <- H1.
  apply (scan_category_other t entry); [|done]. intros <-. apply Hc.
  apply list_elem_of_fmap. by exists entry.
Qed.

Lemma extract_same_keys (catalog : list (string * list string)) (t : text)
    (R : gmap string (list text)) :
  extract_with catalog t = Ok R -> forall c, is_Some (R !! c) <-> c ∈ CATEGORIES.
Proof.
  intros Hrun c.
  assert (same_keys initial_results R) as Hkeys.
  { revert Hrun. unfold extract_with. apply (for_each_inv (same_keys initial_results)); [|done].
    intros R1 entry R2 _ H1 H2%scan_category_same_keys c'. by rewrite (H1 c'). }
  rewrite <- not_eq_None_Some, <- (Hkeys c), not_eq_None_Some.
  unfold initial_results, CATEGORIES. split.
  - intros [x Hx]. apply lookup_insert_Some in Hx as [(<- & _)|(_ & Hx)]; [set_solver|].
    apply lookup_insert_Some in Hx as [(<- & _)|(_ & Hx)]; [set_solver|].
    apply lookup_insert_Some in Hx as [(<- & _)|(_ & Hx)]; [set_solver|].
    by rewrite lookup_empty in Hx.
  - intros Hc. repeat (apply elem_of_cons in Hc as [->|Hc]; [by eexists|]).
    by apply elem_of_nil in Hc.
Qed.


Lemma for_each_raise {A S : Type} (body : S -> A -> result S) (l : list A) (s : S) (e : exn) :
  for_each body s l = Raise e ->
  exists s1 x, x ∈ l /\ body s1 x = Raise e /\
    exists l1, for_each body s l1 = Ok s1 /\ forall y, y ∈ l1 -> y ∈ l.
Proof.
  revert s. induction l as [|x l IH]; intros s; simpl; [done|].
  destruct (body s x) as [s'|e'] eqn:E.
  - intros (s1 & y & Hy & Hb & l1 & Hl1 & Hsub)%IH. exists s1, y.
    split_and!; [by right|done|]. exists (x :: l1). simpl. rewrite E.
    split; [done|]. intros z [->|Hz]%elem_of_cons; [by left|right; by apply Hsub].
  - intros [= ->]. exists s, x. split_and!; [by left|done|]. exists []. split; [done|].
    by intros y ?%elem_of_nil.
Qed.

Lemma for_each_same_keys_categories (t : text) (l : list (string * list string))
    (R R' : gmap string (list text)) :
  for_each (scan_category t) R l = Ok R' -> same_keys R R'.
Proof.
  apply (for_each_inv (same_keys R)); [|done].
  intros R1 entry R2 _ H1 H2%scan_category_same_keys c'. by rewrite (H1 c').
Qed.

Lemma for_each_same_keys_keywords (t : text) (c : string) (l : list string)
    (R R' : gmap string (list text)) :
  for_each (scan_keyword t c) R l = Ok R' -> same_keys R R'.
Proof.
  apply (for_each_inv (same_keys R)); [|done].
  intros R1 k R2 _ H1 H2%scan_keyword_same_keys c'. by rewrite (H1 c').
Qed.

Lemma initial_results_keys (c : string) :
  initial_results !! c = None <-> (c ∉ CATEGORIES).
Proof.
  unfold initial_results, CATEGORIES. split.
  - intros Hnone Hc. repeat (apply elem_of_cons in Hc as [->|Hc]; [done|]).
    by apply elem_of_nil in Hc.
  - intros Hc. rewrite !lookup_insert_ne; [done|set_solver..].
Qed.

(** X6. With a catalog of any categories the extractor raises nothing
    but KeyError, and it raises KeyError exactly when a keyword of a
    category other than the three offers a span: a category without a
    list in [results] is harmless as long as none of its first three
    matches passes the length filter. *)
Theorem extract_with_KeyError (catalog : list (string * list string)) (t : text) :
  (forall e, extract_with catalog t = Raise e -> e = KeyError) /\
  (extract_with catalog t = Raise KeyError <-> foreign_span catalog t).
Proof.
  assert (forall e, extract_with catalog t = Raise e ->
                    e = KeyError /\ foreign_span catalog t) as Hraise.
  { intros e Hrun. unfold extract_with in Hrun.
    apply for_each_raise in Hrun as (R1 & [c kws] & Hentry & Hcat & l1 & Hl1 & _).
    apply for_each_same_keys_categories in Hl1 as Hk1.
    unfold scan_category in Hcat. simpl in Hcat.
    apply for_each_raise in Hcat as (R2 & k & Hk & Hkw & l2 & Hl2 & _).
    apply for_each_same_keys_keywords in Hl2 as Hk2.
    destruct (R2 !! c) as [old|] eqn:Hc; [by rewrite (scan_keyword_fold t c k R2 old Hc) in Hkw|].
    unfold scan_keyword in Hkw. rewrite scan_matches_missing in Hkw by done.
    destruct (List.filter _ _) as [|x xs] eqn:Hacc; [done|]. injection Hkw as <-.
    split; [done|]. exists c, k, x. split_and!.
    - by exists kws.
    - apply initial_results_keys, Hk1, Hk2, Hc.
    - assert (In x (List.filter length_ok
                (map strip (take 3 (findall (sentence_pattern (s2t k)) t))))) as Hx
        by (rewrite Hacc; by left).
      apply filter_In in Hx as (Hx & Hok). apply in_map_iff in Hx as (m & <- & Hm).
      exists m. split_and!; [by apply list_elem_of_In|done|done]. }
  split; [intros e He; by apply Hraise|]. split; [intros He; by destruct (Hraise _ He)|].
  intros (c & k & x & Hk & Hc & Hx).
  destruct (extract_with catalog t) as [R|e] eqn:Hrun.
  - exfalso. destruct (extract_covered catalog t R Hrun c k Hk x Hx) as (spans & Hs & _).
    apply Hc, (extract_same_keys catalog t R Hrun). by eexists.
  - f_equal. by apply Hraise.
Qed.

Lemma extract_with_KeyError_witness :
  extract_with other_catalog sample_text = Raise KeyError.
Proof.
  apply (proj2 (extract_with_KeyError other_catalog sample_text)).
  exists "Climate", "climate change", sample_span. split_and!.
  - exists ["climate change"]. split; [right; left|left].
  - apply (bool_decide_unpack _). vm_compute. exact I.
  - exists sample_span. split_and!; [vm_compute; left|vm_compute; reflexivity|reflexivity].
Defined.

Lemma extract_fold (t : text) (catalog : list (string * list string)) :
  forall (R0 R : gmap string (list text)) (c : string) (kws : list string) (old : list text),
    NoDup (map fst catalog) -> (c, kws) ∈ catalog -> R0 !! c = Some old ->
    for_each (scan_category t) R0 catalog = Ok R ->
    R !! c = Some (foldl (keyword_spans t) old kws).
Proof.
  induction catalog as [|entry catalog IH]; intros R0 R c kws old Hnd Hin Hold; simpl.
  - by apply elem_of_nil in Hin.
  - apply NoDup_cons in Hnd as (Hfresh & Hnd).
    destruct (scan_category t R0 entry) as [R1|] eqn:E; [|done]. intros Hrest.
    apply elem_of_cons in Hin as [<-|Hin].
    + rewrite (scan_categories_other t catalog c R1 R Hfresh Hrest).
      unfold scan_category in E. simpl in E.
      rewrite (scan_keywords_fold t c kws R0 old Hold) in E. injection E as <-.
      apply lookup_insert_eq.
    + apply (IH R1 R c kws old Hnd Hin); [|done].
      rewrite (scan_category_other t entry c R0 R1); [done| |done].
      intros Heq. apply Hfresh. rewrite Heq. apply list_elem_of_fmap. by exists (c, kws).
Qed.

Lemma category_fold_lookup (catalog : list (string * list string)) (t : text)
    (R : gmap string (list text)) (c : string) (kws : list string) :
  NoDup (map fst catalog) -> extract_with catalog t = Ok R ->
  (c, kws) ∈ catalog -> c ∈ CATEGORIES ->
  R !! c = Some (category_spans t kws).
Proof.
  intros Hnd Hrun Hin Hc. unfold category_spans.
  apply (extract_fold t catalog initial_results R c kws [] Hnd Hin); [|done].
  destruct (initial_results !! c) as [l|] eqn:E.
  - unfold initial_results in E.
    apply lookup_insert_Some in E as [(_ & <-)|(_ & E)]; [done|].
    apply lookup_insert_Some in E as [(_ & <-)|(_ & E)]; [done|].
    apply lookup_insert_Some in E as [(_ & <-)|(_ & E)]; [done|].
    by rewrite lookup_empty in E.
  - by apply initial_results_keys in E.
Qed.

(** X7. With a catalog that names no category twice, the list of a
    category in the result is the fold of the extractor over the
    keywords of that category alone: each stripped, accepted match is
    appended unless it is in the list already, keyword after keyword
    and match after match. The other categories of the catalog have no
    part in it. *)
Theorem extract_with_category_fold (catalog : list (string * list string)) (t : text)
    (R : gmap string (list text)) (c : string) (kws : list string) :
  NoDup (map fst catalog) -> extract_with catalog t = Ok R ->
  (c, kws) ∈ catalog -> c ∈ CATEGORIES ->
  R !! c = Some (category_spans t kws).
Proof. apply category_fold_lookup. Qed.

Lemma extract_with_category_fold_witness :
  sample_results !! "Environmental"
  = Some (category_spans sample_text ["climate change"; "net zero"]).
Proof.
  apply (extract_with_category_fold small_catalog sample_text sample_results "Environmental").
  - apply (bool_decide_unpack _). vm_compute. exact I.
  - vm_compute. reflexivity.
  - left.
  - left.
Defined.

Lemma append_new_length (spans : list text) (xs : list text) :
  length (foldl append_new spans xs) <= length spans + length xs.
Proof.
  revert spans. induction xs as [|x xs IH]; intros spans; simpl; [lia|].
  etrans; [apply IH|]. unfold append_new. case_bool_decide; [lia|].
  rewrite length_app. simpl. lia.
Qed.

Lemma accepted_length (t : text) (k : string) : length (accepted t k) <= 3.
Proof.
  unfold accepted. etrans; [apply List.filter_length_le|].
  rewrite length_map, length_take. lia.
Qed.

Lemma keyword_spans_length (t : text) (kws : list string) (spans : list text) :
  length (foldl (keyword_spans t) spans kws) <= length spans + 3 * length kws.
Proof.
  revert spans. induction kws as [|k kws IH]; intros spans; simpl; [lia|].
  etrans; [apply IH|]. unfold keyword_spans.
  pose proof (append_new_length spans (accepted t k)). pose proof (accepted_length t k). lia.
Qed.

(** X8. With a catalog that names no category twice, the list of a
    category has at most three spans for each keyword of the category. *)
Theorem category_list_length (catalog : list (string * list string)) (t : text)
    (R : gmap string (list text)) (c : string) (kws : list string) (spans : list text) :
  NoDup (map fst catalog) -> extract_with catalog t = Ok R ->
  (c, kws) ∈ catalog -> R !! c = Some spans ->
  length spans <= 3 * length kws.
Proof.
  intros Hnd Hrun Hin Hspans.
  assert (c ∈ CATEGORIES) as Hc by (apply (extract_same_keys catalog t R Hrun); by eexists).
  rewrite (category_fold_lookup catalog t R c kws Hnd Hrun Hin Hc) in Hspans.
  injection Hspans as <-. apply (keyword_spans_length t kws []).
Qed.

Lemma category_list_length_witness : length sample_spans <= 3 * 2.
Proof.
  apply (category_list_length small_catalog sample_text sample_results "Environmental"
           ["climate change"; "net zero"]).
  - apply (bool_decide_unpack _). vm_compute. exact I.
  - vm_compute. reflexivity.
  - left.
  - vm_compute. reflexivity.
Defined.

(** ** The metrics aggregator, further *)

Lemma analyze_keys (esg : gmap string (list text)) (c : string) :
  is_Some (analyze_esg_disclosure esg !! c) <-> c ∈ CATEGORIES.
Proof.
  split.
  - intros [m Hm]. unfold analyze_esg_disclosure, CATEGORIES in *. simpl in Hm.
    apply lookup_insert_Some in Hm as [(<- & _)|(_ & Hm)]; [set_solver|].
    apply lookup_insert_Some in Hm as [(<- & _)|(_ & Hm)]; [set_solver|].
    apply lookup_insert_Some in Hm as [(<- & _)|(_ & Hm)]; [set_solver|].
    by rewrite lookup_empty in Hm.
  - intros Hc. rewrite analyze_lookup by done. by eexists.
Qed.

(** X9. The aggregator reads the lists of the three categories and
    nothing else: data that agree on these lists, a missing list
    counting as an empty one, give the same metrics, and the metrics
    have the three categories as their keys, whatever the keys of the
    data are. *)
Theorem analyze_reads_categories (esg1 esg2 : gmap string (list text)) :
  (forall c, c ∈ CATEGORIES -> default [] (esg1 !! c) = default [] (esg2 !! c)) ->
  analyze_esg_disclosure esg1 = analyze_esg_disclosure esg2 /\
  forall c, is_Some (analyze_esg_disclosure esg1 !! c) <-> c ∈ CATEGORIES.
Proof.
  intros Hagree. split; [|apply analyze_keys].
  apply map_eq. intros c. destruct (decide (c ∈ CATEGORIES)) as [Hc|Hc].
  - by rewrite !analyze_lookup, Hagree.
  - destruct (analyze_esg_disclosure esg1 !! c) eqn:E1.
    { exfalso. apply Hc, (analyze_keys esg1). by eexists. }
    destruct (analyze_esg_disclosure esg2 !! c) eqn:E2; [|done].
    exfalso. apply Hc, (analyze_keys esg2). by eexists.
Qed.

Lemma analyze_reads_categories_witness :
  analyze_esg_disclosure ∅ = analyze_esg_disclosure odd_data /\
  forall c, is_Some (analyze_esg_disclosure ∅ !! c) <-> c ∈ CATEGORIES.
Proof.
  apply (analyze_reads_categories ∅ odd_data). intros c Hc. unfold CATEGORIES in Hc.
  repeat (apply elem_of_cons in Hc as [->|Hc]; [reflexivity|]).
  by apply elem_of_nil in Hc.
Defined.

(** X10. The sample of a category has at most 203 characters: at most
    200 of the first span and the three periods, or the 19 of the
    sentinel. A first span of at most 200 characters is in the sample
    whole. *)
Theorem sample_length (items : list text) :
  length (sample (metrics_of items)) <= 203 /\
  forall first rest, items = first :: rest -> length first <= 200 ->
    sample (metrics_of items) = first ++ s2t "...".
Proof.
  split.
  - destruct items as [|first rest]; cbn [metrics_of sample].
    + change (length (s2t "No disclosure found")) with 19. lia.
    + rewrite length_app, length_take. change (length (s2t "...")) with 3. lia.
  - intros first rest -> Hlen. simpl. by rewrite take_ge.
Qed.

Lemma sample_length_witness :
  length (sample (metrics_of sample_spans)) <= 203 /\
  forall first rest, sample_spans = first :: rest -> length first <= 200 ->
    sample (metrics_of sample_spans) = first ++ s2t "...".
Proof. apply (sample_length sample_spans). Defined.

Lemma sum_lengths_bounds (spans : list text) :
  (forall x, x ∈ spans -> length_ok x = true) ->
  51 * length spans <= sum_lengths spans /\ sum_lengths spans <= 499 * length spans.
Proof.
  induction spans as [|x spans IH]; intros Hall; simpl; [lia|].
  destruct IH as (? & ?); [intros y Hy; apply Hall; by right|].
  specialize (Hall x (list_elem_of_here _ _)). unfold length_ok in Hall.
  apply andb_true_iff in Hall as (H1%Nat.ltb_lt & H2%Nat.ltb_lt). lia.
Qed.

(** X11. For a list that the extractor returns and that is not empty,
    of a length that a Python list can have, the average length that
    the aggregator computes is a float between 51 and 499. *)
Theorem average_length_bounds (catalog : list (string * list string)) (t : text)
    (R : gmap string (list text)) (c : string) (spans : list text) :
  extract_with catalog t = Ok R -> R !! c = Some spans -> spans <> [] ->
  (Z.of_nat (length spans) < 2 ^ 63)%Z ->
  exists v, number_value (avg_length (metrics_of spans)) = Some v /\
            (51 <= v)%Q /\ (v <= 499)%Q.
Proof.
  intros Hrun Hc Hne Hlen.
  assert (forall x, x ∈ spans -> length_ok x = true) as Hall.
  { intros x Hx. by destruct (extract_sourced catalog t R Hrun c spans x Hc Hx)
      as (k & _ & m & _ & _ & Hok). }
  destruct (sum_lengths_bounds spans Hall) as (Hlo & Hhi).
  destruct spans as [|x spans]; [done|]. cbn [metrics_of avg_length number_value].
  set (n := length (x :: spans)) in *. set (s := sum_lengths (x :: spans)) in *.
  assert (0 < n) as Hn by (unfold n; simpl; lia).
  assert (0 < Z.of_nat n)%Z as Hn' by lia.
  destruct (true_divide_total (Z.of_nat s) (Z.of_nat n)) as (m & e & Hdiv).
  { change (2 ^ 126)%Z with 85070591730234615865843651857942052864%Z.
    change (2 ^ 63)%Z with 9223372036854775808%Z in Hlen. nia. }
  { lia. }
  rewrite Hdiv. exists (float_value m e). split; [done|].
  assert (0 < inject_Z (Z.of_nat n))%Q as Hpos.
  { change 0%Q with (inject_Z 0). rewrite <- Zlt_Qlt. lia. }
  assert (51 <= inject_Z (Z.of_nat s) / inject_Z (Z.of_nat n))%Q as Hmlo.
  { apply Qle_shift_div_l; [done|]. change 51%Q with (inject_Z 51).
    rewrite <- inject_Z_mult, <- Zle_Qle. lia. }
  assert (inject_Z (Z.of_nat s) / inject_Z (Z.of_nat n) <= 499)%Q as Hmhi.
  { apply Qle_shift_div_r; [done|]. change 499%Q with (inject_Z 499).
    rewrite <- inject_Z_mult, <- Zle_Qle. lia. }
  assert (forall z : Z, (Z.abs z < 2 ^ 53)%Z ->
    (Qabs (float_value m e - inject_Z (Z.of_nat s) / inject_Z (Z.of_nat n))
     <= Qabs (inject_Z z - inject_Z (Z.of_nat s) / inject_Z (Z.of_nat n)))%Q) as Hnear.
  { intros z Hz. apply (true_divide_nearest _ _ m e (inject_Z z) (Nat2Z.is_nonneg _) Hn' Hdiv).
    exists z, 0%Z. split; [done|]. split; [lia|]. unfold float_value.
    change (2 ^ 0)%Q with 1%Q. ring. }
  set (mu := (inject_Z (Z.of_nat s) / inject_Z (Z.of_nat n))%Q) in *.
  split.
  - pose proof (Hnear 51%Z ltac:(done)) as H51. change (inject_Z 51) with 51%Q in H51.
    rewrite (Qabs_neg (51 - mu)) in H51 by lra.
    apply Qabs_Qle_condition in H51. lra.
  - pose proof (Hnear 499%Z ltac:(done)) as H499. change (inject_Z 499) with 499%Q in H499.
    rewrite (Qabs_pos (499 - mu)) in H499 by lra.
    apply Qabs_Qle_condition in H499. lra.
Qed.

Lemma average_length_bounds_witness :
  exists v, number_value (avg_length (metrics_of sample_spans)) = Some v /\
            (51 <= v)%Q /\ (v <= 499)%Q.
Proof.
  apply (average_length_bounds small_catalog sample_text sample_results "Environmental").
  - vm_compute. reflexivity.
  - vm_compute. reflexivity.
  - discriminate.
  - vm_compute. reflexivity.
Defined.

(** ** The filing fetcher, further *)

Lemma py_eq_str_true (v : json) (s : text) : py_eq_str v s = true -> v = JString s.
Proof. destruct v; simpl; try done. by intros ->%bool_decide_eq_true. Qed.

Lemma add_filing_Ok (cik ft : text) (count : Z) (accs dates docs : json)
    (results results' : list filing) (item : nat * json) :
  add_filing cik ft count accs dates docs results item = Ok results' ->
  results' = results \/
  exists f, results' = results ++ [f] /\ (Z.of_nat (length results) < count)%Z /\
            form f = JString ft /\ ("-"%char ∉ accession f) /\ cik_of f = cik.
Proof.
  unfold add_filing. destruct (py_eq_str (snd item) ft) eqn:Heq; simpl; [|intros [= <-]; by left].
  destruct (Z.ltb_spec (Z.of_nat (length results)) count) as [Hlt|]; [|intros [= <-]; by left].
  destruct (py_index accs (fst item)) as [a|]; simpl; [|done].
  destruct a as [| | |s| |]; simpl; try done.
  destruct (py_index dates (fst item)) as [d|]; simpl; [|done].
  destruct (py_index docs (fst item)) as [doc|]; simpl; [|done].
  intros [= <-]. right. eexists. split_and!; [done|done| | |done]; simpl.
  - by apply py_eq_str_true.
  - intros Hin%list_elem_of_filter. by destruct Hin.
Qed.

(** X12. The filings that [get_company_filings] lists are at most
    [count], each has the form type asked for, an accession number
    without a dash, and the key of the company. *)
Theorem listed_filings (cik ft : text) (count : Z) (data : json) (l : list filing) :
  filings_of_metadata cik ft count data = Ok l ->
  (Z.of_nat (length l) <= Z.max 0 count)%Z /\
  forall f, f ∈ l -> form f = JString ft /\ ("-"%char ∉ accession f) /\ cik_of f = cik.
Proof.
  unfold filings_of_metadata.
  destruct (py_get data "filings" _) as [v1|]; simpl; [|done].
  destruct (py_get v1 "recent" _) as [v2|]; simpl; [|done].
  destruct (py_get v2 "form" _) as [forms|]; simpl; [|done].
  destruct (py_get v2 "accessionNumber" _) as [accs|]; simpl; [|done].
  destruct (py_get v2 "filingDate" _) as [dates|]; simpl; [|done].
  destruct (py_get v2 "primaryDocument" _) as [docs|]; simpl; [|done].
  destruct (py_iter forms) as [items|]; simpl; [|done].
  apply (for_each_inv (fun l =>
    (Z.of_nat (length l) <= Z.max 0 count)%Z /\
    forall f, f ∈ l -> form f = JString ft /\ ("-"%char ∉ accession f) /\ cik_of f = cik)).
  - intros res item res' _ (Hlen & Hall) [->|(f & -> & Hlt & Hf)]%add_filing_Ok; [done|].
    split; [rewrite length_app; simpl; lia|].
    intros f' [Hf'|Hf']%elem_of_app; [by apply Hall|].
    by apply list_elem_of_singleton in Hf' as ->.
  - split; [simpl; lia|]. by intros f ?%elem_of_nil.
Qed.

Lemma listed_filings_witness :
  (Z.of_nat (length (filings_of_rows (s2t "0000320193") (s2t "10-K") sample_rows))
     <= Z.max 0 5)%Z /\
  forall f, f ∈ filings_of_rows (s2t "0000320193") (s2t "10-K") sample_rows ->
    form f = JString (s2t "10-K") /\ ("-"%char ∉ accession f) /\
    cik_of f = s2t "0000320193".
Proof.
  apply (listed_filings (s2t "0000320193") (s2t "10-K") 5 (metadata_of sample_rows)).
  vm_compute. reflexivity.
Defined.

Section WellFormed.
Variables (cik ft : text) (count : Z) (rows : list row).

Let accs := JArray (map (fun r => JString (row_accession r)) rows).
Let dates := JArray (map row_date rows).
Let docs := JArray (map row_document rows).

Lemma add_rows (rest : list row) :
  forall pre, rows = pre ++ rest ->
    for_each (add_filing cik ft count accs dates docs)
      (take (Z.to_nat count) (filings_of_rows cik ft pre))
      (zip (seq (length pre) (length rest)) (map (fun r => JString (row_form r)) rest))
    = Ok (take (Z.to_nat count) (filings_of_rows cik ft rows)).
Proof.
  induction rest as [|r rest IH]; intros pre Hrows.
  - simpl. by rewrite Hrows, app_nil_r.
  - assert (rows = (pre ++ [r]) ++ rest) as Hrows' by (by rewrite <- app_assoc).
    specialize (IH (pre ++ [r]) Hrows'). rewrite length_app, Nat.add_1_r in IH.
    cbn [length seq map zip zip_with for_each].
    assert (add_filing cik ft count accs dates docs
              (take (Z.to_nat count) (filings_of_rows cik ft pre))
              (length pre, JString (row_form r))
            = Ok (take (Z.to_nat count) (filings_of_rows cik ft (pre ++ [r])))) as ->; [|done].
    unfold add_filing, filings_of_rows. cbn [fst snd py_eq_str].
    rewrite filter_app, map_app, filter_cons, filter_nil.
    case_bool_decide as Hform; rewrite (decide_bool_decide _); simpl.
    + rewrite (bool_decide_eq_true_2 _ Hform). simpl.
      set (F := map (filing_of_row cik) (filter (fun r0 => row_form r0 = ft) pre)).
      rewrite length_take.
      destruct (Z.ltb_spec (Z.of_nat (Z.to_nat count `min` length F)) count) as [Hlt|Hge].
      * assert (length F < Z.to_nat count) as HF by lia.
        unfold accs, dates, docs. cbn [py_index].
        rewrite !list_lookup_fmap, Hrows, !list_lookup_middle by done. simpl.
        rewrite !take_ge by (rewrite ?length_app; simpl; lia). done.
      * rewrite take_app_le by lia. done.
    + rewrite (bool_decide_eq_false_2 _ Hform). simpl. by rewrite app_nil_r.
Qed.
End WellFormed.

(** X13. On metadata whose four lists are parallel, with strings as
    forms and accession numbers, [get_company_filings] lists the first
    [count] rows of the form type asked for, in the order of the
    metadata, with the dashes taken out of the accession numbers. *)
Theorem well_formed_metadata_filings (cik ft : text) (count : Z) (rows : list row) :
  filings_of_metadata cik ft count (metadata_of rows)
  = Ok (take (Z.to_nat count) (filings_of_rows cik ft rows)).
Proof.
  unfold filings_of_metadata, metadata_of.
  cbv beta iota zeta delta [py_get assoc_get result_bind py_iter default from_option id
                            String.eqb Ascii.eqb Bool.eqb].
  rewrite length_map.
  pose proof (add_rows cik ft count rows rows [] eq_refl) as H.
  unfold filings_of_rows at 1 in H. rewrite filter_nil in H.
  cbn [map length] in H. by rewrite take_nil in H.
Qed.

Lemma for_each_fixed {A S : Type} (body : S -> A -> result S) (s : S) (l : list A) :
  (forall x, x ∈ l -> body s x = Ok s) -> for_each body s l = Ok s.
Proof.
  induction l as [|x l IH]; intros H; simpl; [done|].
  rewrite (H x) by by left. apply IH. intros y Hy. apply H. by right.
Qed.

(** X14. Metadata in which no form is of the type asked for, or a call
    with a [count] that is not positive, gives the empty list, whatever
    the three other lists are, present or not: they are indexed only
    for a form that is taken. *)
Theorem no_matching_form (cik ft : text) (count : Z)
    (top mid fields : list (string * json)) (forms : list json) :
  default (JObject []) (assoc_get "filings" top) = JObject mid ->
  default (JObject []) (assoc_get "recent" mid) = JObject fields ->
  default (JArray []) (assoc_get "form" fields) = JArray forms ->
  (count <= 0)%Z \/ (forall f, f ∈ forms -> py_eq_str f ft = false) ->
  filings_of_metadata cik ft count (JObject top) = Ok [].
Proof.
  intros Hmid Hfields Hforms Hnone. unfold filings_of_metadata. cbn [py_get result_bind].
  rewrite Hmid. cbn [py_get result_bind]. rewrite Hfields. cbn [py_get result_bind].
  rewrite Hforms. cbn [py_iter result_bind].
  apply for_each_fixed. intros [i f] Hin. unfold add_filing. cbn [fst snd length].
  destruct Hnone as [Hcount|Hforms'].
  - destruct (Z.ltb_spec (Z.of_nat 0) count) as [|_]; [lia|]. by rewrite andb_false_r.
  - apply elem_of_zip_r in Hin. by rewrite (Hforms' f Hin).
Qed.

Lemma no_matching_form_witness :
  filings_of_metadata (s2t "0000320193") (s2t "10-Q") 5 forms_only_metadata = Ok [].
Proof.
  apply (no_matching_form (s2t "0000320193") (s2t "10-Q") 5
           [("filings", JObject [("recent", JObject [("form", JArray [JString (s2t "10-K")])])])]
           [("recent", JObject [("form", JArray [JString (s2t "10-K")])])]
           [("form", JArray [JString (s2t "10-K")])]
           [JString (s2t "10-K")]).
  - reflexivity.
  - reflexivity.
  - reflexivity.
  - right. intros f Hf. apply list_elem_of_singleton in Hf as ->. reflexivity.
Defined.

(** ** The report driver, further *)

Section DriverMore.
Variable get_text : text -> text.
Variable net : request -> result response.

Let step := process_company get_text net.

Lemma get_filing_content_world (cik acc : text) (doc : json) (w w' : world)
    (r : result (option text)) :
  get_filing_content net cik acc doc w = (r, w') ->
  w' = log_request w (Archive (lstrip_zeros cik) acc doc).
Proof.
  unfold get_filing_content, bind, requests_get.
  destruct (net _) as [resp|e]; [|by intros [= _ <-]].
  destruct (negb _); by intros [= _ <-].
Qed.

(** X15. A call of [get_company_filings] and then of
    [get_filing_content] sends two requests, one each and in this
    order, whatever the answers are: no request is sent again, and no
    file is written. *)
Theorem one_request_per_fetch (cik ft acc : text) (count : Z) (doc : json)
    (w w1 w2 : world) (r1 : result (list filing)) (r2 : result (option text)) :
  get_company_filings net cik ft count w = (r1, w1) ->
  get_filing_content net cik acc doc w1 = (r2, w2) ->
  requests_made w2
  = requests_made w ++ [Submissions cik; Archive (lstrip_zeros cik) acc doc] /\
  artifact w2 = artifact w.
Proof.
  intros H1%get_company_filings_world H2%get_filing_content_world. subst. simpl.
  by rewrite <- app_assoc.
Qed.

(** The step of a company sends its metadata request and at most one
    request more. *)
Lemma process_company_requests (acc : list (string * company_result))
    (entry : string * text) (w w' : world) (r : result (list (string * company_result))) :
  step acc entry w = (r, w') ->
  exists more, requests_made w' = requests_made w ++ Submissions (snd entry) :: more /\
               length more <= 1.
Proof.
  unfold step, process_company, bind.
  destruct (get_company_filings net (snd entry) (s2t "10-K") 1 w) as [r1 w1] eqn:E1.
  apply get_company_filings_world in E1 as ->.
  destruct r1 as [[|f rest]|e].
  - intros [= _ <-]. exists []. split; [done|simpl; lia].
  - destruct (get_filing_content net (snd entry) (accession f) (document f)
                (log_request w (Submissions (snd entry)))) as [r2 w2] eqn:E2.
    apply get_filing_content_world in E2 as ->.
    assert (forall r0, (r0, log_request (log_request w (Submissions (snd entry)))
                          (Archive (lstrip_zeros (snd entry)) (accession f) (document f)))
                       = (r, w') ->
      exists more, requests_made w' = requests_made w ++ Submissions (snd entry) :: more /\
                   length more <= 1) as Hdone.
    { intros r0 [= _ <-]. eexists [_]. simpl. by rewrite <- app_assoc. }
    destruct r2 as [[[|ch content]|]|e]; try apply Hdone.
    unfold lift, ret. destruct (extract_esg_sections _ _); [|apply Hdone].
    destruct (print_report _ _); apply Hdone.
  - intros [= _ <-]. exists []. split; [done|simpl; lia].
Qed.

Lemma io_for_each_requests_bound (companies : list (string * text)) :
  forall (acc : list (string * company_result)) (w w' : world)
         (r : result (list (string * company_result))),
    io_for_each step acc companies w = (r, w') ->
    length (requests_made w') <= length (requests_made w) + 2 * length companies /\
    (forall res, r = Ok res ->
       length (requests_made w) + length companies <= length (requests_made w')).
Proof.
  induction companies as [|entry l IH]; intros acc w w' r; simpl.
  - intros [= <- <-]. split; [lia|]. intros; lia.
  - unfold bind. destruct (step acc entry w) as [r1 w1] eqn:E.
    apply process_company_requests in E as (more & Hr & Hlen).
    assert (length (requests_made w1) = length (requests_made w) + 1 + length more) as Hw1.
    { rewrite Hr, length_app. simpl. lia. }
    destruct r1 as [acc1|e].
    + intros (Hup & Hlow)%IH. split; [lia|]. intros res Hres. specialize (Hlow res Hres). lia.
    + intros [= <- <-]. split; [lia|]. done.
Qed.

(** X16. A run sends at most two requests for each company, and a run
    that ends normally has sent at least one for each. *)
Theorem requests_per_run (companies : list (string * text)) (w w' : world)
    (r : result (list (string * company_result))) :
  main_with get_text net companies w = (r, w') ->
  length (requests_made w') <= length (requests_made w) + 2 * length companies /\
  (forall res, r = Ok res ->
     length (requests_made w) + length companies <= length (requests_made w')).
Proof.
  unfold main_with, bind. fold step.
  destruct (io_for_each step [] companies w) as [r1 w1] eqn:E.
  apply io_for_each_requests_bound in E as (Hup & Hlow).
  destruct r1 as [acc|e].
  - unfold write_artifact, ret. intros [= <- <-]. simpl. split; [done|].
    intros res _. by apply (Hlow acc).
  - intros [= <- <-]. split; [done|]. done.
Qed.
End DriverMore.

Lemma one_request_per_fetch_witness :
  requests_made (log_request (log_request empty_world (Submissions (s2t "0000320193")))
                   (Archive (lstrip_zeros (s2t "0000320193")) (s2t "000032019323000106")
                      (JString (s2t "aapl-20230930.htm"))))
  = requests_made empty_world
    ++ [Submissions (s2t "0000320193");
        Archive (lstrip_zeros (s2t "0000320193")) (s2t "000032019323000106")
          (JString (s2t "aapl-20230930.htm"))] /\
  artifact (log_request (log_request empty_world (Submissions (s2t "0000320193")))
              (Archive (lstrip_zeros (s2t "0000320193")) (s2t "000032019323000106")
                 (JString (s2t "aapl-20230930.htm"))))
  = artifact empty_world.
Proof.
  apply (one_request_per_fetch not_found_net (s2t "0000320193") (s2t "10-K")
           (s2t "000032019323000106") 1 (JString (s2t "aapl-20230930.htm"))
           empty_world
           (log_request empty_world (Submissions (s2t "0000320193")))
           (log_request (log_request empty_world (Submissions (s2t "0000320193")))
              (Archive (lstrip_zeros (s2t "0000320193")) (s2t "000032019323000106")
                 (JString (s2t "aapl-20230930.htm"))))
           (Ok []) (Ok None)).
  - reflexivity.
  - reflexivity.
Defined.

Lemma requests_per_run_witness :
  3 <= 0 + 2 * 3 /\
  (forall res : list (string * company_result), Ok [] = Ok res -> 0 + 3 <= 3).
Proof.
  apply (requests_per_run id not_found_net COMPANIES empty_world
           {| requests_made := [Submissions (s2t "0000320193");
                                Submissions (s2t "0001652044");
                                Submissions (s2t "0001318605")];
              artifact := Some [] |} (Ok [])).
  reflexivity.
Defined.

(** ** The results of a run *)

Lemma assoc_set_elem {V : Type} (key : string) (v : V) (l : list (string * V))
    (item : string * V) :
  item ∈ assoc_set key v l -> item ∈ l \/ item = (key, v).
Proof.
  induction l as [|[k v'] l IH]; simpl.
  - intros [->|H%elem_of_nil]%elem_of_cons; [by right|done].
  - destruct (String.eqb_spec k key) as [->|Hne].
    + intros [->|H]%elem_of_cons; [by right|left; by right].
    + intros [->|H]%elem_of_cons; [left; by left|].
      destruct (IH H) as [H'| ->]; [left; by right|by right].
Qed.

Lemma assoc_set_keys {V : Type} (key : string) (v : V) (l : list (string * V)) :
  map fst (assoc_set key v l)
  = if bool_decide (key ∈ map fst l) then map fst l else map fst l ++ [key].
Proof.
  induction l as [|[k v'] l IH]; simpl; [done|].
  destruct (String.eqb_spec k key) as [->|Hne]; simpl.
  - rewrite bool_decide_eq_true_2; [done|by left].
  - rewrite IH. case_bool_decide as Hin.
    + rewrite bool_decide_eq_true_2; [done|by right].
    + rewrite bool_decide_eq_false_2; [done|].
      intros [?|?]%elem_of_cons; [by apply Hne|done].
Qed.

Section DriverResults.
Variable get_text : text -> text.
Variable net : request -> result response.

Let step := process_company get_text net.

(** What the step of a company gives when it raises nothing: the
    results as they were, or with an entry set for the company. *)
Lemma process_company_Ok (acc acc' : list (string * company_result))
    (entry : string * text) (w w' : world) :
  step acc entry w = (Ok acc', w') ->
  acc' = acc \/
  exists data, acc' = assoc_set (fst entry) data acc /\ consistent data.
Proof.
  unfold step, process_company, bind.
  destruct (get_company_filings net (snd entry) (s2t "10-K") 1 w) as [[[|f rest]|e] w1].
  - intros [= <- _]. by left.
  - destruct (get_filing_content net (snd entry) (accession f) (document f) w1)
      as [[[[|ch content]|]|e] w2]; try (intros [= <- _]; by left).
    unfold lift, ret.
    destruct (extract_esg_sections get_text (ch :: content)) as [R|e] eqn:HR; [|done].
    destruct (print_report _ _); [|done].
    intros [= <- _]. right. eexists. split; [done|]. split; [done|]. simpl.
    exact (extract_same_keys ESG_KEYWORDS _ R HR).
  - done.
Qed.



Lemma io_for_each_consistent (companies : list (string * text)) :
  forall (acc res : list (string * company_result)) (w w' : world),
    io_for_each step acc companies w = (Ok res, w') ->
    (forall item, item ∈ acc -> consistent (snd item)) ->
    forall item, item ∈ res -> consistent (snd item).
Proof.
  induction companies as [|entry l IH]; intros acc res w w'; simpl.
  - by intros [= <- _].
  - unfold bind. destruct (step acc entry w) as [[acc1|e1] w1] eqn:E; [|done].
    intros Hrun Hacc. apply (IH acc1 res w1 w' Hrun).
    apply process_company_Ok in E as [->|(data & -> & Hdata)]; [done|].
    intros item [Hin| ->]%assoc_set_elem; [by apply Hacc|done].
Qed.

Lemma io_for_each_names (companies : list (string * text)) :
  forall (acc res : list (string * company_result)) (w w' : world),
    io_for_each step acc companies w = (Ok res, w') ->
    NoDup (map fst companies) ->
    (forall name, name ∈ map fst companies -> name ∉ map fst acc) ->
    exists names, map fst res = map fst acc ++ names /\
                  names `sublist_of` map fst companies.
Proof.
  induction companies as [|entry l IH]; intros acc res w w'; simpl.
  - intros [= <- _] _ _. exists []. by rewrite app_nil_r.
  - unfold bind. destruct (step acc entry w) as [[acc1|e1] w1] eqn:E; [|done].
    intros Hrun [Hfresh Hnd]%NoDup_cons Hacc.
    apply process_company_Ok in E as [->|(data & -> & _)].
    + destruct (IH acc res w1 w' Hrun Hnd) as (names & Hres & Hsub).
      { intros name Hname. apply Hacc. by right. }
      exists names. split; [done|]. by apply sublist_cons.
    + destruct (IH _ res w1 w' Hrun Hnd) as (names & Hres & Hsub).
      { intros name Hname. rewrite assoc_set_keys.
        rewrite bool_decide_eq_false_2 by (apply Hacc; by left).
        intros [Hin|Hin%list_elem_of_singleton]%elem_of_app.
        - by apply (Hacc name); [right|].
        - by subst. }
      rewrite assoc_set_keys, bool_decide_eq_false_2 in Hres by (apply Hacc; by left).
      rewrite <- app_assoc in Hres. exists (fst entry :: names). split; [done|].
      by apply sublist_skip.
Qed.


(** X18. The results of a run that ends normally are what the file
    holds; their companies are companies of the list, in its order and
    each at most once; and the entry of each has the three categories
    as the keys of its span lists and the metrics of these lists. *)
Theorem run_results (companies : list (string * text)) (w w' : world)
    (res : list (string * company_result)) :
  NoDup (map fst companies) ->
  main_with get_text net companies w = (Ok res, w') ->
  artifact w' = Some res /\
  map fst res `sublist_of` map fst companies /\
  forall item, item ∈ res -> consistent (snd item).
Proof.
  intros Hnd. unfold main_with, bind. fold step.
  destruct (io_for_each step [] companies w) as [[acc|e1] w1] eqn:E; [|done].
  unfold write_artifact, ret. intros [= <- <-]. split; [done|]. split.
  - destruct (io_for_each_names companies [] acc w w1 E Hnd) as (names & -> & Hsub); [|done].
    intros name _ Hin%elem_of_nil. done.
  - apply (io_for_each_consistent companies [] acc w w1 E). by intros item ?%elem_of_nil.
Qed.

Lemma summary_row_of_consistent (item : string * company_result) :
  consistent (snd item) -> summary_row_of item = Ok (summary_of item).
Proof.
  intros (Hm & _). unfold summary_row_of, summary_of, count_of, spans_in. rewrite Hm.
  rewrite !analyze_lookup by (unfold CATEGORIES; set_solver). done.
Qed.

Lemma summary_rows_from (l : list (string * company_result)) :
  forall rows,
    (forall item, item ∈ l -> consistent (snd item)) ->
    for_each (fun rows item => doR row <- summary_row_of item; Ok (rows ++ [row])) rows l
    = Ok (rows ++ map summary_of l).
Proof.
  induction l as [|item l IH]; intros rows Hall; simpl.
  - by rewrite app_nil_r.
  - rewrite summary_row_of_consistent by (apply Hall; by left). simpl.
    rewrite IH by (intros; apply Hall; by right). by rewrite <- app_assoc.
Qed.

(** X19. The summary table of a run raises nothing and has one row for
    each company of the results, in their order: the counts of a row
    are the lengths of the three span lists of the company, and its
    total is their sum. *)
Theorem run_summary (companies : list (string * text)) (w w' : world)
    (res : list (string * company_result)) :
  main_with get_text net companies w = (Ok res, w') ->
  summary_data res = Ok (map summary_of res).
Proof.
  unfold main_with, bind. fold step.
  destruct (io_for_each step [] companies w) as [[acc|e1] w1] eqn:E; [|done].
  unfold write_artifact, ret. intros [= <- _].
  unfold summary_data. apply (summary_rows_from acc []).
  apply (io_for_each_consistent companies [] acc w w1 E). by intros item ?%elem_of_nil.
Qed.
End DriverResults.


Lemma run_results_witness :
  artifact sample_run_world = Some sample_run /\
  map fst sample_run `sublist_of` map fst COMPANIES /\
  forall item, item ∈ sample_run -> consistent (snd item).
Proof.
  apply (run_results id sample_net COMPANIES empty_world sample_run_world sample_run).
  - apply (bool_decide_unpack _). vm_compute. exact I.
  - vm_compute. reflexivity.
Defined.

Lemma run_summary_witness : summary_data sample_run = Ok (map summary_of sample_run).
Proof.
  apply (run_summary id sample_net COMPANIES empty_world sample_run_world sample_run).
  vm_compute. reflexivity.
Defined.
